(** * ftp-delta-neutral.py: DeltaNeutral FTP -> S3 synchronisation

    A shallow embedding of [get_s3_file_names], [get_ftp_to_s3] and
    [unzip_s3_files] together with the properties of the name
    reconciliation, of the transfer loop and of the archive expansion.

    Python [str] values are [string] (one [ascii] per character, which is
    what the file names of the feed use); the Python sets built with
    [set(...)] are [gset string], and [list(...)] of such a set is an
    arbitrary enumeration of it; the S3 bucket, the FTP directory and the
    local working directory are [gmap string bytes]; code that raises
    returns in the exception monad [M], which threads the state of the three
    stores and the sequence of calls made on them. *)

From Stdlib Require Import ZArith Lia Ascii.
From Stdlib Require String.
From Stdlib.Strings Require Import Byte.
From stdpp Require Import base option list sorting gmap strings.

Local Open Scope Z_scope.

(** ** Python string primitives used by the script *)

Module Py.

Definition chars (x : string) : list ascii := String.list_ascii_of_string x.
Definition str (cs : list ascii) : string := String.string_of_list_ascii cs.

(** Normalisation of one slice bound against a sequence of length [n]:
    a negative bound counts from the end, and every bound is clamped to
    the range [0..n]. *)
Definition clamp (n : nat) (i : Z) : nat :=
  if i <? 0 then Z.to_nat (Z.max (i + Z.of_nat n) 0)
  else Nat.min (Z.to_nat i) n.

(** [x[i:j]]; an omitted bound is [None]. *)
Definition slice (x : string) (i j : option Z) : string :=
  let cs := chars x in
  let n := length cs in
  let lo := from_option (clamp n) 0%nat i in
  let hi := from_option (clamp n) n j in
  str (take (hi - lo) (drop lo cs)).

Definition startswith (x p : string) : bool :=
  bool_decide (chars p `prefix_of` chars x).

Definition endswith (x s : string) : bool :=
  bool_decide (chars s `suffix_of` chars x).

(** [x.split(sep)] for a one-character separator, on characters. *)
Fixpoint split_chars (sep : ascii) (cs : list ascii) : list (list ascii) :=
  match cs with
  | [] => [[]]
  | c :: cs' =>
      if decide (c = sep) then [] :: split_chars sep cs'
      else match split_chars sep cs' with
           | seg :: rest => (c :: seg) :: rest
           | [] => [[c]]
           end
  end.

Definition split (x : string) (sep : ascii) : list string :=
  str <$> split_chars sep (chars x).

End Py.

(** ** Exceptions and the state of the run *)

Definition bytes : Type := list byte.

Inductive exn : Type :=
  | KeyError (field : string)        (* missing dictionary key *)
  | IndexError                       (* list index out of range *)
  | BadZipFile (name : string)       (* zipfile.BadZipFile *)
  | ClientError (key : string)       (* botocore: object cannot be read *)
  | FtpError (name : string)         (* ftplib error during RETR *)
  | S3UploadFailedError (key : string)
  | OSError (name : string).         (* os.remove failed *)

Inductive event : Type :=
  | EvRetr (name : string)           (* ftp_site.retrbinary attempted *)
  | EvUpload (key : string)          (* upload_file / upload_fileobj attempted *)
  | EvRemove (name : string).        (* os.remove attempted *)

Record world : Type := World {
  ftp_dir : list string;             (* ftp_site.nlst() in Level2 *)
  ftp_files : gmap string bytes;     (* contents served by RETR *)
  s3 : gmap string bytes;            (* objects of the bucket, by key *)
  local : gmap string bytes;         (* files of the working directory *)
  log : list event                   (* calls made so far, oldest first *)
}.

(** What can go wrong in the environment: the calls that the network or the
    file system refuses, how many bytes of a file a failing retrieval has
    delivered before it fails, and the staged byte strings that are archives
    with a damaged member.  For such a byte string [damaged] gives what the
    loop over the members experiences: the members that [z.open] and the
    read of the upload deliver, in the order of [z.namelist()], up to the
    first member that cannot be opened or read, and the exception raised
    there ([BadZipFile] for a bad CRC, [RuntimeError], ...). *)
Record faults : Type := Faults {
  retr_fails : string -> bool;
  upload_fails : string -> bool;
  remove_fails : string -> bool;
  retr_received : string -> nat;
  damaged : bytes -> option (list (string * bytes) * exn)
}.

(** The bytes of [data] that a failing retrieval of [name] has written. *)
Definition received_part (fl : faults) (name : string) (data : bytes) : bytes :=
  take (retr_received fl name) data.

Definition no_faults : faults :=
  Faults (fun _ => false) (fun _ => false) (fun _ => false)
         (fun _ => 0%nat) (fun _ => None).

Definition M (A : Type) : Type := world -> world * (exn + A).

Definition ret {A} (a : A) : M A := fun w => (w, inr a).
Definition raise {A} (e : exn) : M A := fun w => (w, inl e).
Definition bind {A B} (m : M A) (k : A -> M B) : M B :=
  fun w => match m w with
           | (w', inr a) => k a w'
           | (w', inl e) => (w', inl e)
           end.
Definition get_world : M world := fun w => (w, inr w).
Definition emit (e : event) : M unit :=
  fun w => (World (ftp_dir w) (ftp_files w) (s3 w) (local w) (log w ++ [e]), inr tt).
Definition set_s3 (f : gmap string bytes -> gmap string bytes) : M unit :=
  fun w => (World (ftp_dir w) (ftp_files w) (f (s3 w)) (local w) (log w), inr tt).
Definition set_local (f : gmap string bytes -> gmap string bytes) : M unit :=
  fun w => (World (ftp_dir w) (ftp_files w) (s3 w) (f (local w)) (log w), inr tt).
Definition lift {A} (r : exn + A) : M A := fun w => (w, r).

Notation "'let*' x ':=' m 'in' k" := (bind m (fun x => k))
  (at level 10, x name, m at level 100, k at level 200).
Notation "m ';;' k" := (bind m (fun _ => k))
  (at level 100, k at level 200, right associativity).

(** [for x in xs: body x], stopping at the first exception. *)
Fixpoint for_each {A} (body : A -> M unit) (xs : list A) : M unit :=
  match xs with
  | [] => ret tt
  | x :: xs' => body x ;; for_each body xs'
  end.

(** ** [get_s3_file_names] *)

(** One entry of the ['Contents'] list of a [list_objects] response. *)
Record s3_object : Type := S3Object { Key : string; Size : nat }.

(** The response dictionary of [s3_client.list_objects]: the ['Contents']
    field is absent when the listing has no object. *)
Record list_objects_response : Type := Response {
  Contents : option (list s3_object)
}.

(** [s3_client.list_objects(Bucket = in_bucket)] is called once, without
    prefix and without following the continuation marker: it answers with
    the first page of the bucket, that is with at most [MaxKeys] keys, the
    first ones in the order of the key bytes. *)
Definition MaxKeys : nat := 1000.

Definition first_page (bucket : gmap string bytes) : list string :=
  take MaxKeys (merge_sort String.le (map_to_list bucket).*1).

Definition list_objects (bucket : gmap string bytes) : list_objects_response :=
  match first_page bucket with
  | [] => Response None
  | keys =>
      Response
        (Some ((fun k => S3Object k (from_option length 0%nat (bucket !! k)))
                 <$> keys))
  end.

(** [resp['Contents']] *)
Definition get_Contents (resp : list_objects_response) : exn + list s3_object :=
  match Contents resp with
  | Some c => inr c
  | None => inl (KeyError "Contents")
  end.

(** [x.split('/')[1]] *)
Definition second_segment (x : string) : exn + string :=
  match Py.split x "/"%char !! 1%nat with
  | Some seg => inr seg
  | None => inl IndexError
  end.

(** [[f(x) for x in xs]] where [f] may raise: the first exception wins. *)
Fixpoint comprehension {A B} (f : A -> exn + B) (xs : list A) : exn + list B :=
  match xs with
  | [] => inr []
  | x :: xs' =>
      match f x with
      | inl e => inl e
      | inr y => match comprehension f xs' with
                 | inl e => inl e
                 | inr ys => inr (y :: ys)
                 end
      end
  end.

(** [if in_folder:] holds for a non-empty string, not for [None] or [''] . *)
Definition truthy (in_folder : option string) : option string :=
  match in_folder with
  | Some f => if decide (f = "") then None else Some f
  | None => None
  end.

(** [ls_s3_files]: the keys that do not end in ['/'], optionally those
    that start with [in_folder]. *)
Definition ls_s3_files (ls_s3_object_key : list string)
    (in_folder : option string) : list string :=
  let files := filter (fun x => Py.endswith x "/" = false) ls_s3_object_key in
  match truthy in_folder with
  | Some f => filter (fun x => Py.startswith x f = true) files
  | None => files
  end.

Definition get_s3_file_names_of
    (resp_s3_objects : list_objects_response) (in_folder : option string)
    : exn + list string :=
  match get_Contents resp_s3_objects with
  | inl e => inl e
  | inr ls_s3_contents =>
      let ls_s3_object_key := Key <$> ls_s3_contents in
      comprehension second_segment (ls_s3_files ls_s3_object_key in_folder)
  end.

Definition get_s3_file_names (in_folder : option string) : M (list string) :=
  let* w := get_world in
  lift (get_s3_file_names_of (list_objects (s3 w)) in_folder).

(** ** Name reconciliation *)

(** [[x for x in ls_ftp_contents if x[-4:] == '.zip']] *)
Definition ls_ftp_zip_files (ls_ftp_contents : list string) : list string :=
  filter (fun x => Py.slice x (Some (-4)) None = ".zip") ls_ftp_contents.

(** [[x for x in ls_ftp_zip_files if x[7:8] == '_']] *)
Definition ls_ftp_monthly_files (zip_files : list string) : list string :=
  filter (fun x => Py.slice x (Some 7) (Some 8) = "_") zip_files.

(** [[x for x in ls_ftp_zip_files if x[7:8] != '_']] *)
Definition ls_ftp_daily_files (zip_files : list string) : list string :=
  filter (fun x => Py.slice x (Some 7) (Some 8) <> "_") zip_files.

(** The daily-file classification of a directory listing, as the two
    comprehensions compose. *)
Definition classifyDaily (ls_ftp_contents : list string) : list string :=
  ls_ftp_daily_files (ls_ftp_zip_files ls_ftp_contents).

(** [set(ls_ftp_daily_files) - set(ls_s3_file_names)] *)
Definition missing (remoteNames localNames : list string) : gset string :=
  list_to_set remoteNames ∖ list_to_set localNames.

(** [[x for x in ls_s3_unzip_daily if x.startswith('options_')]] *)
Definition ls_options_unzip (ls_s3_unzip_daily : list string) : list string :=
  filter (fun x => Py.startswith x "options_" = true) ls_s3_unzip_daily.

(** [f'L2{x[7:-3]}zip'] *)
Definition conform (x : string) : string :=
  "L2" +:+ Py.slice x (Some 7) (Some (-3)) +:+ "zip".

Definition ls_conform_unzip (options_unzip : list string) : list string :=
  conform <$> options_unzip.

(** [set(ls_s3_zip_daily) - set(ls_conform_unzip)] *)
Definition pendingExpansion (stagedNames expandedNames : list string) : gset string :=
  list_to_set stagedNames
    ∖ list_to_set (ls_conform_unzip (ls_options_unzip expandedNames)).

(** ** zipfile *)

(** A valid archive, as [zipfile.ZipFile] holds it after reading the central
    directory: the entries in archive order, each with the decompressed
    content that reading it delivers.  An archive in which some member
    cannot be opened or read is not of this type; see [damaged]. *)
Record zip_archive : Type := ZipArchive { filelist : list (string * bytes) }.

(** [z.namelist()] *)
Definition namelist (z : zip_archive) : list string := (filelist z).*1.

(** The [NameToInfo] dictionary: filled entry by entry, so that a later
    entry replaces an earlier one of the same name. *)
Definition NameToInfo (z : zip_archive) : gmap string bytes :=
  foldl (fun m e => <[e.1 := e.2]> m) ∅ (filelist z).

(** [z.open(name).read()] in a valid archive: the content of the entry that
    [NameToInfo] holds for the name. *)
Definition zopen (z : zip_archive) (name : string) : exn + bytes :=
  match NameToInfo z !! name with
  | Some data => inr data
  | None => inl (KeyError name)
  end.

(** ** The two stages *)

Section Run.

(** The failures injected by the environment. *)
Variable fl : faults.

(** [list(s)] for a Python set [s]: some enumeration of its elements. *)
Variable list_of_set : gset string -> list string.

(** [zipfile.ZipFile(BytesIO(data))]; [None] stands for [BadZipFile]. *)
Variable ZipFile : bytes -> option zip_archive.

(** [ftp_site.retrbinary(f"RETR {each_file}", open(each_file, 'wb').write)]:
    the local file is created before the transfer starts, and every block
    that arrives is written to it; a transfer that fails on the way has
    written the bytes received so far, and a file that the site does not
    have is refused before any byte arrives. *)
Definition retrbinary (each_file : string) : M unit :=
  set_local (insert each_file []) ;;
  emit (EvRetr each_file) ;;
  let* w := get_world in
  match ftp_files w !! each_file with
  | Some data =>
      if retr_fails fl each_file then
        set_local (insert each_file (received_part fl each_file data)) ;;
        raise (FtpError each_file)
      else set_local (insert each_file data)
  | None => raise (FtpError each_file)
  end.

(** [s3_client.upload_file(filename, in_bucket, key)] *)
Definition upload_file (filename key : string) : M unit :=
  emit (EvUpload key) ;;
  let* w := get_world in
  match local w !! filename with
  | Some data =>
      if upload_fails fl key then raise (S3UploadFailedError key)
      else set_s3 (insert key data)
  | None => raise (S3UploadFailedError key)
  end.

(** [os.remove(name)] *)
Definition os_remove (name : string) : M unit :=
  emit (EvRemove name) ;;
  let* w := get_world in
  match local w !! name with
  | Some _ =>
      if remove_fails fl name then raise (OSError name)
      else set_local (delete name)
  | None => raise (OSError name)
  end.

(** The body of the download loop of [get_ftp_to_s3]. *)
Definition transfer (in_folder each_file : string) : M unit :=
  retrbinary each_file ;;
  upload_file each_file (in_folder +:+ each_file) ;;
  os_remove each_file.

Definition transfer_loop (in_folder : string) (queue : list string) : M unit :=
  for_each (transfer in_folder) queue.

Definition get_ftp_to_s3 (in_folder : string) : M unit :=
  let* w := get_world in
  let ls_ftp_contents := ftp_dir w in
  let zip_files := ls_ftp_zip_files ls_ftp_contents in
  let daily_files := ls_ftp_daily_files zip_files in
  let* ls_s3_file_names := get_s3_file_names (Some in_folder) in
  let ls_get_ftp_to_s3 := list_of_set (missing daily_files ls_s3_file_names) in
  if decide (0 < length ls_get_ftp_to_s3)%nat
  then transfer_loop in_folder ls_get_ftp_to_s3
  else ret tt.

(** [zip_obj.get()["Body"].read()] *)
Definition s3_get (key : string) : M bytes :=
  let* w := get_world in
  match s3 w !! key with
  | Some data => ret data
  | None => raise (ClientError key)
  end.

(** [s3_resource.meta.client.upload_fileobj(fileobj, Bucket, Key)] *)
Definition upload_fileobj (data : bytes) (key : string) : M unit :=
  emit (EvUpload key) ;;
  if upload_fails fl key then raise (S3UploadFailedError key)
  else set_s3 (insert key data).

(** The inner loop over [z.namelist()]. *)
Definition publish (in_unzipfolder : string) (z : zip_archive) : M unit :=
  for_each
    (fun each_unzip_filename =>
       let* data := lift (zopen z each_unzip_filename) in
       upload_fileobj data (in_unzipfolder +:+ each_unzip_filename))
    (namelist z).

(** The inner loop on an archive with a damaged member: the members that
    can be read are uploaded one after the other, then the exception of the
    damaged member ends the loop. *)
Definition publish_damaged (in_unzipfolder : string)
    (readable : list (string * bytes)) (e : exn) : M unit :=
  for_each
    (fun member => upload_fileobj member.2 (in_unzipfolder +:+ member.1))
    readable ;;
  raise e.

(** The body of the loop of [unzip_s3_files].  The staged object is read;
    then either it is a valid archive, or its members can be read up to a
    damaged one, or [zipfile.ZipFile] refuses it with [BadZipFile]. *)
Definition expand (in_zipfolder in_unzipfolder each_zipfile : string) : M unit :=
  let* buffer := s3_get (in_zipfolder +:+ each_zipfile) in
  match ZipFile buffer with
  | Some z => publish in_unzipfolder z
  | None =>
      match damaged fl buffer with
      | Some (readable, e) => publish_damaged in_unzipfolder readable e
      | None => raise (BadZipFile each_zipfile)
      end
  end.

Definition expand_loop (in_zipfolder in_unzipfolder : string)
    (queue : list string) : M unit :=
  for_each (expand in_zipfolder in_unzipfolder) queue.

Definition unzip_s3_files (in_zipfolder in_unzipfolder : string) : M unit :=
  let* ls_s3_zip_daily := get_s3_file_names (Some in_zipfolder) in
  let* ls_s3_unzip_daily := get_s3_file_names (Some in_unzipfolder) in
  let ls_diff_unzip :=
    list_of_set (pendingExpansion ls_s3_zip_daily ls_s3_unzip_daily) in
  expand_loop in_zipfolder in_unzipfolder ls_diff_unzip.

(** The two calls of the [__main__] block, after the credentials have been
    read: the second stage runs only if the first one returns. *)
Definition run_stages (in_zipfolder in_unzipfolder : string) : M unit :=
  get_ftp_to_s3 in_zipfolder ;;
  unzip_s3_files in_zipfolder in_unzipfolder.

Definition s3_folder_zip : string := "zip_daily_files/".
Definition s3_folder_unzip : string := "unzip_daily_files/".

Definition main : M unit := run_stages s3_folder_zip s3_folder_unzip.

End Run.

(** The objects that the entries of an archive become under the publish
    prefix: key and content. *)
Definition published (in_unzipfolder : string) (es : list (string * bytes))
    : list (string * bytes) :=
  (fun e => (in_unzipfolder +:+ e.1, e.2)) <$> es.

(** ** [get_secret] *)

(** The response dictionary of [client.get_secret_value]: of the two fields
    the script reads, the one that matches the kind of the secret is
    present. *)
Record secret_value_response : Type := SecretValue {
  SecretString : option string;
  SecretBinary : option bytes
}.

(** How the call [client.get_secret_value(SecretId=secret_name)] ends: with
    a response, with a [ClientError] carrying
    [e.response['Error']['Code']], or with an exception of another class. *)
Inductive get_secret_value_outcome : Type :=
  | SecretResponse (resp : secret_value_response)
  | SecretClientError (code : string)
  | SecretOtherError (name : string).

Inductive secret_exn : Type :=
  | RaisedClientError (code : string)
  | RaisedKeyError (field : string)
  | RaisedOther (name : string).

(** [get_secret]: the [return] sits inside the [try], so the [else] branch
    that would read ['SecretBinary'] is never run; the [except] clause
    re-raises for the codes of its five branches and falls through
    otherwise, which makes the function return [None]. *)
Definition get_secret (outcome : get_secret_value_outcome)
    : secret_exn + option string :=
  match outcome with
  | SecretResponse resp =>
      match SecretString resp with
      | Some secret => inr (Some secret)
      | None => inl (RaisedKeyError "SecretString")
      end
  | SecretClientError code =>
      if decide (code = "DecryptionFailureException") then
        inl (RaisedClientError code)
      else if decide (code = "InternalServiceErrorException") then
        inl (RaisedClientError code)
      else if decide (code = "InvalidParameterException") then
        inl (RaisedClientError code)
      else if decide (code = "InvalidRequestException") then
        inl (RaisedClientError code)
      else if decide (code = "ResourceNotFoundException") then
        inl (RaisedClientError code)
      else inr None
  | SecretOtherError name => inl (RaisedOther name)
  end.

(** ** Auxiliary notions for the statements *)

(** ['sep'.join(segs)] on characters. *)
Fixpoint join_chars (sep : ascii) (segs : list (list ascii)) : list ascii :=
  match segs with
  | [] => []
  | [seg] => seg
  | seg :: rest => seg ++ sep :: join_chars sep rest
  end.

(** The number of occurrences of a character. *)
Definition count_char (c : ascii) (cs : list ascii) : nat :=
  length (filter (fun x => x = c) cs).

(** A later state of a run with respect to an earlier one: the FTP site is
    as it was, no object of the bucket has disappeared, and calls have only
    been added to the log. *)
Definition grows (w w' : world) : Prop :=
  ftp_dir w' = ftp_dir w
  ∧ ftp_files w' = ftp_files w
  ∧ dom (s3 w) ⊆ dom (s3 w')
  ∧ log w `prefix_of` log w'.

(** A file of the queue that the environment lets through: it is on the
    FTP site and none of the three calls made for it fails. *)
Definition transfers_ok (fl : faults) (in_folder : string) (w : world)
    (x : string) : Prop :=
  is_Some (ftp_files w !! x)
  ∧ retr_fails fl x = false
  ∧ upload_fails fl (in_folder +:+ x) = false
  ∧ remove_fails fl x = false.

(** ** Concrete states used to run the model *)

Definition empty_world : world := World [] ∅ ∅ ∅ [].

(** Scenario A of the spec: two daily files and one monthly file on the
    FTP site, nothing staged besides an unrelated object. *)
Definition scenario_A : world :=
  World ["L2_20200101.zip"; "L2_20200102.zip"; "L2_2020_January.zip"]
        (<["L2_20200101.zip" := [x01]]>
           (<["L2_20200102.zip" := [x02]]>
              (<["L2_2020_January.zip" := [x03]]> ∅)))
        (<["zip_daily_files/L2_20191231.zip" := [x00]]> ∅)
        ∅ [].

Definition retr_fault (name : string) : faults :=
  Faults (fun x => bool_decide (x = name)) (fun _ => false) (fun _ => false)
         (fun _ => 0%nat) (fun _ => None).
Definition upload_fault (key : string) : faults :=
  Faults (fun _ => false) (fun x => bool_decide (x = key)) (fun _ => false)
         (fun _ => 0%nat) (fun _ => None).
Definition remove_fault (name : string) : faults :=
  Faults (fun _ => false) (fun _ => false) (fun x => bool_decide (x = name))
         (fun _ => 0%nat) (fun _ => None).

#[global] Instance byte_eq_decision : EqDecision byte := byte_eq_dec.

(** An archive reader given by a table: the listed byte strings are the
    valid archives, every other byte string is refused.  It stands in for
    [zipfile.ZipFile] when the model is run on concrete states. *)
Definition ZipFile_table (table : list (bytes * zip_archive))
    (data : bytes) : option zip_archive :=
  match list_find (fun e => e.1 = data) table with
  | Some (_, (_, z)) => Some z
  | None => None
  end.

(** The byte string [data] is an archive whose members can be read up to a
    damaged one. *)
Definition damaged_fault (data : bytes) (readable : list (string * bytes))
    (e : exn) : faults :=
  Faults (fun _ => false) (fun _ => false) (fun _ => false) (fun _ => 0%nat)
         (fun b => if decide (b = data) then Some (readable, e) else None).

(** The retrieval of [name] fails after [n] bytes have arrived. *)
Definition partial_retr_fault (name : string) (n : nat) : faults :=
  Faults (fun x => bool_decide (x = name)) (fun _ => false) (fun _ => false)
         (fun _ => n) (fun _ => None).

(** A three-byte file on the FTP site. *)
Definition scenario_partial : world :=
  World ["L2_20200103.zip"] (<["L2_20200103.zip" := [x0a; x0b; x0c]]> ∅)
        (<["zip_daily_files/L2_20191231.zip" := [x00]]> ∅) ∅ [].

(** One admissible enumeration of a set: its elements in lexicographic
    order. *)
Definition sorted_list (s : gset string) : list string :=
  merge_sort String.le (elements s).

(** Scenario B of the spec: one staged archive with two members. *)
Definition archive_B : zip_archive :=
  ZipArchive [("options_a.txt", [x61; x61]); ("options_b.txt", [x62])].
Definition blob_B : bytes := [x50; x4b; x03; x04; x0b].
Definition scenario_B : world :=
  World [] ∅ (<["zip_daily_files/L2_20200115.zip" := blob_B]> ∅) ∅ [].

(** A corrupt archive staged next to a valid one. *)
Definition archive_Y : zip_archive :=
  ZipArchive [("options_20200102.csv", [x2a])].
Definition blob_Y : bytes := [x50; x4b; x03; x04; x02].
Definition blob_X : bytes := [x00; x01].
Definition scenario_XY : world :=
  World [] ∅
        (<["zip_daily_files/L2_20200101.zip" := blob_X]>
           (<["zip_daily_files/L2_20200102.zip" := blob_Y]> ∅))
        ∅ [].

(** An archive that lists the same member name twice. *)
Definition archive_dup : zip_archive :=
  ZipArchive [("options_a.txt", [x01]); ("options_a.txt", [x02])].
Definition blob_dup : bytes := [x50; x4b; x03; x04; x0d].
Definition scenario_dup : world :=
  World [] ∅ (<["zip_daily_files/L2_20200115.zip" := blob_dup]> ∅) ∅ [].

Definition ZipFile_ex : bytes -> option zip_archive :=
  ZipFile_table [(blob_B, archive_B); (blob_Y, archive_Y); (blob_dup, archive_dup)].

(** * Properties *)

(** Closed decidable side conditions are settled by evaluation. *)
Ltac decide_by_compute :=
  match goal with
  | |- ?P => apply (bool_decide_unpack P); vm_compute; exact I
  end.

(** ** Strings *)

Section StringFacts.

Lemma chars_app (a b : string) : Py.chars (a +:+ b) = Py.chars a ++ Py.chars b.
Proof.
  induction a as [|c a IH]; [reflexivity|].
  change (c :: Py.chars (a +:+ b) = c :: (Py.chars a ++ Py.chars b)).
  by rewrite IH.
Qed.

Lemma str_chars (x : string) : Py.str (Py.chars x) = x.
Proof. apply String.string_of_list_ascii_of_string. Qed.

Lemma chars_str (cs : list ascii) : Py.chars (Py.str cs) = cs.
Proof. apply String.list_ascii_of_string_of_list_ascii. Qed.

Lemma chars_inj (x y : string) : Py.chars x = Py.chars y -> x = y.
Proof. intros H. by rewrite <- (str_chars x), <- (str_chars y), H. Qed.

Lemma chars_length (x : string) : length (Py.chars x) = String.length x.
Proof. induction x as [|c x IH]; [done|]. simpl. by rewrite <- IH. Qed.

Lemma str_app (a b : list ascii) : Py.str (a ++ b) = Py.str a +:+ Py.str b.
Proof. apply chars_inj. by rewrite chars_app, !chars_str. Qed.

(** [(a + b + c)[len(a):-len(c)] == b] when [c] is not empty. *)
Lemma slice_middle (a b c : string) :
  (0 < String.length c)%nat ->
  Py.slice (a +:+ b +:+ c)
    (Some (Z.of_nat (String.length a)))
    (Some (- Z.of_nat (String.length c))) = b.
Proof.
  intros Hc. unfold Py.slice, Py.clamp. cbn [from_option].
  rewrite !chars_app, !length_app, !chars_length.
  set (la := String.length a). set (lb := String.length b).
  set (lc := String.length c) in *.
  replace (Z.of_nat la <? 0) with false by lia.
  replace (- Z.of_nat lc <? 0) with true by lia.
  replace (Nat.min (Z.to_nat (Z.of_nat la)) (la + (lb + lc))) with la by lia.
  replace (Z.to_nat (Z.max (- Z.of_nat lc + Z.of_nat (la + (lb + lc))) 0))
    with (la + lb)%nat by lia.
  rewrite drop_app_length' by (by rewrite chars_length).
  replace (la + lb - la)%nat with lb by lia.
  rewrite take_app_length' by (by rewrite chars_length).
  apply str_chars.
Qed.

End StringFacts.

(** ** The naming transform *)

Lemma append_assoc (a b c : string) : (a +:+ b) +:+ c = a +:+ b +:+ c.
Proof. apply chars_inj. by rewrite !chars_app, app_assoc. Qed.

Lemma startswith_app (p x : string) : Py.startswith (p +:+ x) p = true.
Proof.
  unfold Py.startswith. apply bool_decide_eq_true.
  rewrite chars_app. by apply prefix_app_r.
Qed.

(** The reverse transform keeps what stands between the first seven
    characters and the last three. *)
Lemma conform_middle (head mid ext : string) :
  String.length head = 7%nat -> String.length ext = 3%nat ->
  conform (head +:+ mid +:+ ext) = "L2" +:+ mid +:+ "zip".
Proof.
  intros Hh He. unfold conform.
  pose proof (slice_middle head mid ext) as H.
  rewrite Hh, He in H.
  change (Z.of_nat 7) with 7 in H. change (- Z.of_nat 3) with (-3) in H.
  rewrite H by lia. reflexivity.
Qed.

(** C2 (as amended): the reverse transform of line 276 maps the member name
    [options_<suffix>.<ext>], for any three-character extension, back to
    the archive name [L2_<suffix>.zip]; such a member name also passes the
    ['options_'] filter of line 275. *)
Theorem conform_roundtrip (suffix ext : string) :
  String.length ext = 3%nat ->
  Py.startswith ("options_" +:+ suffix +:+ "." +:+ ext) "options_" = true
  ∧ conform ("options_" +:+ suffix +:+ "." +:+ ext) = "L2_" +:+ suffix +:+ ".zip".
Proof.
  intros He. split; [apply startswith_app|].
  change ("options_" +:+ suffix +:+ "." +:+ ext)
    with ("options" +:+ "_" +:+ suffix +:+ "." +:+ ext).
  replace ("_" +:+ suffix +:+ "." +:+ ext)
    with (("_" +:+ suffix +:+ ".") +:+ ext).
  - rewrite conform_middle by done.
    change ("L2" +:+ ("_" +:+ suffix +:+ ".") +:+ "zip")
      with ("L2_" +:+ (suffix +:+ ".") +:+ "zip").
    by rewrite append_assoc.
  - change (("_" +:+ suffix +:+ ".") +:+ ext)
      with ("_" +:+ (suffix +:+ ".") +:+ ext).
    by rewrite append_assoc.
Qed.

Lemma conform_roundtrip_20200115 :
  String.length "csv" = 3%nat
  ∧ Py.startswith "options_20200115.csv" "options_" = true
  ∧ conform "options_20200115.csv" = "L2_20200115.zip".
Proof.
  split; [reflexivity|]. apply (conform_roundtrip "20200115" "csv"). reflexivity.
Defined.

(** The member name without an extension, as the spec derives it, does not
    come back to the archive name: the slice drops its last three digits. *)
Lemma conform_bare_name_fails :
  conform ("options_" +:+ "20200115") = "L2_20200zip"
  ∧ conform ("options_" +:+ "20200115") <> "L2" +:+ "20200115" +:+ ".zip"
  ∧ conform ("options_" +:+ "20200115") <> "L2_" +:+ "20200115" +:+ ".zip".
Proof. repeat split; by vm_compute. Qed.

(** ** Pending expansions *)

Lemma elem_of_pendingExpansion (staged expanded : list string) (x : string) :
  x ∈ pendingExpansion staged expanded ↔
  x ∈ staged ∧
  ¬ ∃ e, e ∈ expanded ∧ Py.startswith e "options_" = true ∧ conform e = x.
Proof.
  unfold pendingExpansion, ls_conform_unzip, ls_options_unzip.
  rewrite elem_of_difference, !elem_of_list_to_set, list_elem_of_fmap.
  split; intros [Hx Hn]; (split; [done|]); intros (e & H1 & H2).
  - destruct H2 as [H2 H3]. apply Hn. exists e. split; [done|].
    apply list_elem_of_filter. done.
  - apply list_elem_of_filter in H2 as [H2 H3]. apply Hn. by exists e.
Qed.

(** C3 (as amended): [pendingExpansion] removes from the staged names the
    archive name that each ['options_'] member name implies under the
    reverse transform; nothing expanded leaves the archive pending, and the
    member [options_20200115.csv] marks [L2_20200115.zip] as expanded. *)
Theorem pendingExpansion_spec :
  (∀ staged expanded x,
      x ∈ pendingExpansion staged expanded ↔
      x ∈ staged ∧
      ¬ ∃ e, e ∈ expanded ∧ Py.startswith e "options_" = true ∧ conform e = x)
  ∧ pendingExpansion ["L2_20200115.zip"] [] = {["L2_20200115.zip"]}
  ∧ pendingExpansion ["L2_20200115.zip"] ["options_20200115.csv"] = ∅.
Proof.
  split; [apply elem_of_pendingExpansion|].
  split; apply set_eq; intros x; rewrite elem_of_pendingExpansion.
  - rewrite list_elem_of_singleton, elem_of_singleton. split; [by intros []|].
    intros ->. split; [done|]. intros (e & He & _). by apply elem_of_nil in He.
  - rewrite list_elem_of_singleton. split; [|by intros []%not_elem_of_empty].
    intros [-> Hn]. exfalso. apply Hn. exists "options_20200115.csv".
    split; [by apply list_elem_of_singleton|]. by vm_compute.
Qed.

(** With the member name of the spec's example the archive stays pending. *)
Lemma pendingExpansion_bare_name_fails :
  pendingExpansion ["L2_20200115.zip"] ["options_20200115"] = {["L2_20200115.zip"]}
  ∧ pendingExpansion ["L2_20200115.zip"] ["options_20200115"] <> ∅.
Proof.
  assert (pendingExpansion ["L2_20200115.zip"] ["options_20200115"]
          = {["L2_20200115.zip"]}) as E.
  { apply set_eq; intros x; rewrite elem_of_pendingExpansion.
    rewrite list_elem_of_singleton, elem_of_singleton. split; [by intros []|].
    intros ->. split; [done|]. intros (e & He & _ & Hc).
    apply list_elem_of_singleton in He as ->. by vm_compute in Hc. }
  split; [done|]. rewrite E. intros H.
  assert ("L2_20200115.zip" ∈ (∅ : gset string)) as H'; [|by apply not_elem_of_empty in H'].
  rewrite <- H. by apply elem_of_singleton.
Qed.

(** ** Daily files and the transfer queue *)

Lemma elem_of_classifyDaily (names : list string) (x : string) :
  x ∈ classifyDaily names ↔
  x ∈ names ∧ Py.slice x (Some (-4)) None = ".zip"
  ∧ Py.slice x (Some 7) (Some 8) <> "_".
Proof.
  unfold classifyDaily, ls_ftp_daily_files, ls_ftp_zip_files.
  rewrite !list_elem_of_filter. tauto.
Qed.

Lemma elem_of_missing (A B : list string) (x : string) :
  x ∈ missing A B ↔ x ∈ A ∧ x ∉ B.
Proof. unfold missing. by rewrite elem_of_difference, !elem_of_list_to_set. Qed.

Lemma missing_subseteq (A B : list string) :
  (∀ x, x ∈ A -> x ∈ B) -> missing A B = ∅.
Proof.
  intros H. apply set_eq. intros x. rewrite elem_of_missing.
  split; [intros [Hx Hn]; destruct Hn; auto | by intros ?%not_elem_of_empty].
Qed.

Section ListOfSet.

Variable list_of_set : gset string -> list string.
Hypothesis list_of_set_perm : ∀ s, list_of_set s ≡ₚ elements s.

Lemma elem_of_list_of_set (s : gset string) (x : string) :
  x ∈ list_of_set s ↔ x ∈ s.
Proof. by rewrite list_of_set_perm, elem_of_elements. Qed.

Lemma NoDup_list_of_set (s : gset string) : NoDup (list_of_set s).
Proof. rewrite list_of_set_perm. apply NoDup_elements. Qed.

Lemma list_of_set_empty : list_of_set ∅ = [].
Proof.
  apply Permutation_nil_r. rewrite list_of_set_perm. by rewrite elements_empty.
Qed.

Lemma get_ftp_to_s3_nothing_missing (fl : faults) (in_folder : string)
    (w : world) (staged : list string) :
  get_s3_file_names_of (list_objects (s3 w)) (Some in_folder) = inr staged ->
  (∀ x, x ∈ classifyDaily (ftp_dir w) -> x ∈ staged) ->
  get_ftp_to_s3 fl list_of_set in_folder w = (w, inr tt).
Proof.
  intros Hs Hsub.
  unfold get_ftp_to_s3, get_s3_file_names, bind, get_world, lift.
  rewrite Hs. fold (classifyDaily (ftp_dir w)).
  rewrite (missing_subseteq _ _ Hsub), list_of_set_empty.
  reflexivity.
Qed.

End ListOfSet.

(** C5: of the directory listing, [classifyDaily] keeps the archive names
    that have no ['_'] at offset 7; on the two names of the example it keeps
    the daily one only, and a name with the separator at that offset is
    neither classified daily nor put into the transfer queue. *)
Theorem classifyDaily_spec :
  classifyDaily ["L2_2020_January.zip"; "L2_20200115.zip"] = ["L2_20200115.zip"]
  ∧ (∀ names x,
       x ∈ classifyDaily names ↔
       x ∈ names ∧ Py.slice x (Some (-4)) None = ".zip"
       ∧ Py.slice x (Some 7) (Some 8) <> "_")
  ∧ (∀ names staged x,
       Py.slice x (Some 7) (Some 8) = "_" ->
       (x ∉ classifyDaily names)
       ∧ (x ∉ missing (classifyDaily names) staged)
       ∧ ∀ list_of_set : gset string -> list string,
           (∀ s, list_of_set s ≡ₚ elements s) ->
           x ∉ list_of_set (missing (classifyDaily names) staged)).
Proof.
  split; [by vm_compute|]. split; [apply elem_of_classifyDaily|].
  intros names staged x Hx.
  assert (x ∉ classifyDaily names) as H1.
  { rewrite elem_of_classifyDaily. intros (_ & _ & H). by apply H. }
  assert (x ∉ missing (classifyDaily names) staged) as H2.
  { rewrite elem_of_missing. by intros [? _]. }
  repeat split; [done..|].
  intros los Hlos. by rewrite (elem_of_list_of_set los Hlos).
Qed.

Lemma classifyDaily_monthly_witness :
  Py.slice "L2_2020_January.zip" (Some 7) (Some 8) = "_"
  ∧ "L2_2020_January.zip"
      ∉ classifyDaily ["L2_20200101.zip"; "L2_20200102.zip"; "L2_2020_January.zip"].
Proof.
  split; [reflexivity|].
  destruct classifyDaily_spec as (_ & _ & H).
  apply (H ["L2_20200101.zip"; "L2_20200102.zip"; "L2_2020_January.zip"]
           [] "L2_2020_January.zip").
  reflexivity.
Defined.

(** C4: the transfer queue enumerates, without repetition, exactly the
    daily names that are not staged (set difference by name); it is empty
    for [missing A A], and when every daily name is already staged
    [get_ftp_to_s3] returns without any call and leaves the state as it
    was. *)
Theorem missing_is_difference (list_of_set : gset string -> list string) :
  (∀ s, list_of_set s ≡ₚ elements s) ->
  (∀ A B, missing A B = list_to_set A ∖ list_to_set B)
  ∧ (∀ A B x, x ∈ list_of_set (missing A B) ↔ x ∈ A ∧ x ∉ B)
  ∧ (∀ A B, NoDup (list_of_set (missing A B)))
  ∧ (∀ A, missing A A = ∅ ∧ list_of_set (missing A A) = [])
  ∧ (∀ fl in_folder w staged,
       get_s3_file_names_of (list_objects (s3 w)) (Some in_folder) = inr staged ->
       (∀ x, x ∈ classifyDaily (ftp_dir w) -> x ∈ staged) ->
       get_ftp_to_s3 fl list_of_set in_folder w = (w, inr tt)).
Proof.
  intros Hlos. split; [done|]. split.
  { intros A B x. by rewrite (elem_of_list_of_set _ Hlos), elem_of_missing. }
  split; [intros; by apply NoDup_list_of_set|]. split.
  { intros A. assert (missing A A = ∅) as E by by apply missing_subseteq.
    split; [done|]. rewrite E. by apply list_of_set_empty. }
  intros. by eapply get_ftp_to_s3_nothing_missing.
Qed.

Lemma missing_is_difference_witness :
  elements (missing ["L2_20200101.zip"; "L2_20200102.zip"]
                    ["L2_20200101.zip"; "L2_20200102.zip"]) = [].
Proof.
  apply (missing_is_difference elements); intros s; reflexivity.
Defined.

(** ** Listing the bucket *)

Lemma take_MaxKeys_nil {A} (l : list A) : take MaxKeys l = [] ↔ l = [].
Proof. split; [|by intros ->]. by destruct l. Qed.

Lemma first_page_nil (bucket : gmap string bytes) :
  first_page bucket = [] ↔ bucket = ∅.
Proof.
  unfold first_page. rewrite take_MaxKeys_nil.
  rewrite <- (map_to_list_empty_iff bucket). split.
  - intros E. apply (fmap_nil_inv fst). apply Permutation_nil_r.
    by rewrite <- (merge_sort_Permutation String.le), E.
  - intros ->. reflexivity.
Qed.

(** A key of the page is a key of the bucket. *)
Lemma elem_of_first_page (bucket : gmap string bytes) (k : string) :
  k ∈ first_page bucket -> is_Some (bucket !! k).
Proof.
  unfold first_page. intros Hk%subseteq_take.
  rewrite merge_sort_Permutation in Hk.
  apply list_elem_of_fmap in Hk as ([k' v] & -> & Hin).
  apply elem_of_map_to_list in Hin. by eexists.
Qed.

(** A bucket of at most [MaxKeys] objects is listed completely. *)
Lemma elem_of_first_page_small (bucket : gmap string bytes) (k : string) :
  (size bucket <= MaxKeys)%nat ->
  k ∈ first_page bucket ↔ is_Some (bucket !! k).
Proof.
  intros Hsize. split; [apply elem_of_first_page|]. intros [v Hv].
  unfold first_page. rewrite take_ge.
  - rewrite merge_sort_Permutation. apply list_elem_of_fmap.
    exists (k, v). split; [done|]. by apply elem_of_map_to_list.
  - rewrite merge_sort_Permutation, length_fmap, length_map_to_list. exact Hsize.
Qed.

Lemma list_objects_Contents (bucket : gmap string bytes) :
  Contents (list_objects bucket) = None ↔ bucket = ∅.
Proof.
  rewrite <- first_page_nil. unfold list_objects.
  destruct (first_page bucket); simpl; split; done.
Qed.

Lemma list_objects_page (bucket : gmap string bytes) :
  bucket <> ∅ ->
  ∃ objs, Contents (list_objects bucket) = Some objs
          ∧ Key <$> objs = first_page bucket.
Proof.
  intros Hne. unfold list_objects.
  destruct (first_page bucket) as [|k ks] eqn:E.
  { by apply first_page_nil in E. }
  eexists. split; [reflexivity|]. rewrite <- list_fmap_compose.
  generalize (k :: ks). intros l.
  induction l as [|x l IH]; [done|]. rewrite fmap_cons. by f_equal.
Qed.

Lemma second_segment_raises (x : string) (e : exn) :
  second_segment x = inl e -> e = IndexError.
Proof. unfold second_segment. destruct (_ !! _); congruence. Qed.

Lemma comprehension_raises {A B} (f : A -> exn + B) (xs : list A) (e : exn) :
  comprehension f xs = inl e -> ∃ x, x ∈ xs ∧ f x = inl e.
Proof.
  induction xs as [|x xs IH]; simpl; [done|].
  destruct (f x) as [e'|y] eqn:Hx.
  - intros [= <-]. exists x. split; [left | done].
  - destruct (comprehension f xs) as [e'|ys]; [|done].
    intros [= <-]. destruct IH as (x' & ? & ?); [done|].
    exists x'. split; [by right | done].
Qed.

Lemma comprehension_returns {A B} (f : A -> exn + B) (xs : list A) (ys : list B) :
  comprehension f xs = inr ys -> Forall2 (fun x y => f x = inr y) xs ys.
Proof.
  revert ys. induction xs as [|x xs IH]; simpl; intros ys.
  - intros [= <-]. constructor.
  - destruct (f x) as [e'|y] eqn:Hx; [done|].
    destruct (comprehension f xs) as [e'|ys']; [done|].
    intros [= <-]. constructor; auto.
Qed.

Lemma comprehension_stops {A B} (f : A -> exn + B) (xs : list A) (x : A) (e : exn) :
  x ∈ xs -> f x = inl e -> (∀ x' e', f x' = inl e' -> e' = e) ->
  comprehension f xs = inl e.
Proof.
  intros Hin Hx Hall. destruct (comprehension f xs) as [e'|ys] eqn:Hc.
  - apply comprehension_raises in Hc as (x' & _ & Hx'). f_equal. eauto.
  - apply comprehension_returns in Hc.
    apply list_elem_of_lookup in Hin as [i Hi].
    destruct (Forall2_lookup_l _ _ _ _ _ Hc Hi) as (y & _ & Hy). congruence.
Qed.

Lemma get_s3_file_names_of_raises (resp : list_objects_response)
    (in_folder : option string) (e : exn) :
  get_s3_file_names_of resp in_folder = inl e ->
  (Contents resp = None ∧ e = KeyError "Contents")
  ∨ (is_Some (Contents resp) ∧ e = IndexError).
Proof.
  unfold get_s3_file_names_of, get_Contents.
  destruct (Contents resp) as [c|]; [|intros [= <-]; by left].
  intros (x & _ & Hx)%comprehension_raises. right. split; [by eexists|].
  by eapply second_segment_raises.
Qed.

(** C9: when the listing has no ['Contents'] field - which is the case
    exactly when the bucket holds no object - [get_s3_file_names] raises
    [KeyError] instead of returning an empty list; whenever it returns a
    list the bucket holds at least one object. *)
Theorem get_s3_file_names_empty_bucket :
  (∀ resp in_folder,
     Contents resp = None ->
     get_s3_file_names_of resp in_folder = inl (KeyError "Contents"))
  ∧ (∀ w in_folder,
       s3 w = ∅ ↔ get_s3_file_names in_folder w = (w, inl (KeyError "Contents")))
  ∧ (∀ w in_folder w' names,
       get_s3_file_names in_folder w = (w', inr names) ->
       w' = w ∧ (0 < size (s3 w))%nat).
Proof.
  split; [|split].
  - intros resp f H. unfold get_s3_file_names_of, get_Contents. by rewrite H.
  - intros w f. unfold get_s3_file_names, bind, get_world, lift.
    rewrite <- list_objects_Contents. split.
    + intros H. unfold get_s3_file_names_of, get_Contents. by rewrite H.
    + intros [= H]. apply get_s3_file_names_of_raises in H as [[? _]|[_ [=]]]. done.
  - intros w f w' names. unfold get_s3_file_names, bind, get_world, lift.
    intros [= <- H]. split; [done|].
    destruct (decide (s3 w = ∅)) as [E|E].
    + apply list_objects_Contents in E.
      unfold get_s3_file_names_of, get_Contents in H. by rewrite E in H.
    + apply map_size_non_empty_iff in E. lia.
Qed.

Lemma get_s3_file_names_empty_bucket_witness :
  s3 empty_world = ∅
  ∧ get_s3_file_names (Some "zip_daily_files/") empty_world
    = (empty_world, inl (KeyError "Contents")).
Proof.
  split; [reflexivity|].
  destruct get_s3_file_names_empty_bucket as (_ & H & _).
  apply H. reflexivity.
Defined.

(** ** The second segment of a key *)

Lemma split_chars_no_sep (sep : ascii) (cs : list ascii) :
  sep ∉ cs -> Py.split_chars sep cs = [cs].
Proof.
  induction cs as [|c cs IH]; simpl; [done|].
  intros H. apply not_elem_of_cons in H as [H1 H2].
  destruct (decide (c = sep)); [congruence|]. by rewrite IH.
Qed.

Lemma split_chars_app_sep (sep : ascii) (a rest : list ascii) :
  sep ∉ a -> Py.split_chars sep (a ++ sep :: rest) = a :: Py.split_chars sep rest.
Proof.
  induction a as [|c a IH]; simpl.
  - intros _. by destruct (decide (sep = sep)).
  - intros H. apply not_elem_of_cons in H as [H1 H2].
    destruct (decide (c = sep)); [congruence|]. by rewrite IH.
Qed.

(** The first segment never contains the separator, and it is the whole
    string exactly when the string has no separator. *)
Lemma split_chars_head (sep : ascii) (cs : list ascii) :
  ∃ seg rest, Py.split_chars sep cs = seg :: rest ∧ (sep ∉ seg)
              ∧ (seg = cs ↔ sep ∉ cs).
Proof.
  induction cs as [|c cs (seg & rest & E & Hseg & Hiff)]; simpl.
  - exists [], []. split; [done|]. split; [apply not_elem_of_nil|].
    split; [intros _; apply not_elem_of_nil | done].
  - destruct (decide (c = sep)) as [->|Hne].
    + exists [], (Py.split_chars sep cs). split; [done|].
      split; [apply not_elem_of_nil|]. split; [done|].
      intros H. destruct H. left.
    + rewrite E. exists (c :: seg), rest. split; [done|].
      split; [apply not_elem_of_cons; by split|].
      rewrite not_elem_of_cons. split.
      * intros [= H%Hiff]. split; [congruence | done].
      * intros [_ H%Hiff]. by f_equal.
Qed.

Lemma second_segment_no_slash (key : string) :
  "/"%char ∉ Py.chars key -> second_segment key = inl IndexError.
Proof.
  intros H. unfold second_segment, Py.split.
  by rewrite (split_chars_no_sep _ _ H).
Qed.

Lemma second_segment_folder (folder rest : string) :
  "/"%char ∉ Py.chars folder ->
  ∃ seg, second_segment (folder +:+ "/" +:+ rest) = inr seg
         ∧ ("/"%char ∉ Py.chars seg)
         ∧ (seg = rest ↔ "/"%char ∉ Py.chars rest).
Proof.
  intros H. unfold second_segment, Py.split.
  rewrite chars_app. change (Py.chars ("/" +:+ rest)) with ("/"%char :: Py.chars rest).
  rewrite (split_chars_app_sep _ _ _ H).
  destruct (split_chars_head "/"%char (Py.chars rest)) as (seg & tl & E & Hseg & Hiff).
  rewrite E. simpl. exists (Py.str seg). split; [done|].
  rewrite chars_str. split; [done|]. rewrite <- Hiff. split.
  - intros <-. by rewrite chars_str.
  - intros ->. apply str_chars.
Qed.

Lemma no_slash_not_folder (key : string) :
  "/"%char ∉ Py.chars key -> Py.endswith key "/" = false.
Proof.
  intros H. unfold Py.endswith. apply bool_decide_eq_false.
  intros [pre E]. apply H. rewrite E. apply elem_of_app. right. left.
Qed.

Lemma split_chars_length (sep : ascii) (cs : list ascii) :
  length (Py.split_chars sep cs) = S (count_char sep cs).
Proof.
  unfold count_char. induction cs as [|c cs IH]; [reflexivity|]. simpl.
  rewrite filter_cons. destruct (decide (c = sep)) as [->|Hne]; simpl.
  - by rewrite IH.
  - destruct (Py.split_chars sep cs) as [|seg rest]; [done|]. exact IH.
Qed.

Lemma count_char_0 (c : ascii) (cs : list ascii) :
  count_char c cs = 0%nat ↔ c ∉ cs.
Proof.
  unfold count_char. rewrite length_zero_iff_nil. split.
  - intros E Hin.
    assert (c ∈ filter (fun x => x = c) cs) as H by by apply list_elem_of_filter.
    rewrite E in H. by apply elem_of_nil in H.
  - intros Hn. destruct (filter _ cs) as [|y l] eqn:E; [done|].
    assert (y ∈ filter (fun x => x = c) cs) as H by (rewrite E; left).
    apply list_elem_of_filter in H as [-> H]. done.
Qed.

Lemma second_segment_returns_iff (key : string) :
  (∃ seg, second_segment key = inr seg) ↔ "/"%char ∈ Py.chars key.
Proof.
  split.
  - intros [seg E]. destruct (decide ("/"%char ∈ Py.chars key)) as [|Hn]; [done|].
    by rewrite (second_segment_no_slash _ Hn) in E.
  - intros Hin. unfold second_segment, Py.split.
    pose proof (split_chars_length "/"%char (Py.chars key)) as Hlen.
    destruct (count_char "/"%char (Py.chars key)) as [|n] eqn:Hc.
    { apply count_char_0 in Hc. done. }
    destruct (Py.split_chars "/"%char (Py.chars key)) as [|s0 [|s1 rest]];
      simpl in *; [lia..|]. by eexists.
Qed.

Lemma comprehension_total {A B} (f : A -> exn + B) (xs : list A) :
  (∀ x, x ∈ xs -> ∃ y, f x = inr y) -> ∃ ys, comprehension f xs = inr ys.
Proof.
  induction xs as [|x xs IH]; simpl; intros H; [by eexists|].
  destruct (H x) as [y ->]; [left|].
  destruct IH as [ys ->]; [intros x' Hx'; apply H; by right|]. by eexists.
Qed.

Lemma not_endswith_slash (pre name : string) :
  name <> "" -> "/"%char ∉ Py.chars name -> Py.endswith (pre +:+ name) "/" = false.
Proof.
  intros Hne Hn. unfold Py.endswith. apply bool_decide_eq_false.
  intros [k E]. rewrite chars_app in E.
  destruct (Py.chars name) as [|c cs] eqn:Hc using rev_ind.
  { apply Hne. apply chars_inj. by rewrite Hc. }
  clear IHcs. rewrite app_assoc in E. apply app_inj_tail in E as [_ ->].
  apply Hn. apply elem_of_app. right. left.
Qed.

Lemma second_segment_inr (key name : string) :
  second_segment key = inr name ↔ Py.split key "/"%char !! 1%nat = Some name.
Proof.
  unfold second_segment.
  destruct (Py.split key "/"%char !! 1%nat); split; congruence.
Qed.

Lemma filter_all {A} (P : A -> Prop) `{∀ x, Decision (P x)} (l : list A) :
  (∀ x, x ∈ l -> P x) -> filter P l = l.
Proof.
  induction l as [|x l IH]; intros H'; [done|].
  rewrite filter_cons_True by (apply H'; left).
  f_equal. apply IH. intros y Hy. apply H'. by right.
Qed.

Lemma comprehension_one_level (d : string) (names : list string) :
  "/"%char ∉ Py.chars d ->
  Forall (fun n => "/"%char ∉ Py.chars n) names ->
  comprehension second_segment ((fun n => d +:+ "/" +:+ n) <$> names) = inr names.
Proof.
  intros Hd. induction 1 as [|n names Hn _ IH]; [done|].
  rewrite fmap_cons. simpl.
  destruct (second_segment_folder d n Hd) as (seg & -> & _ & Hiff).
  rewrite IH. f_equal. f_equal. by apply Hiff.
Qed.

(** C10: the name returned for a listed key is its second ['/']-separated
    segment: the call returns exactly when every listed file key holds a
    ['/'], with the second segments of these keys in order, and a listing of
    keys one folder deep gives back the names behind the folder.  A key
    without ['/'] makes the call raise [IndexError], also without folder
    filter; for [folder/rest] the name is [rest] exactly when [rest] has no
    further ['/'], and for [folder/sub/rest] it is the intermediate folder
    [sub]. *)
Theorem get_s3_file_names_second_segment :
  (∀ resp objs in_folder,
     Contents resp = Some objs ->
     ((∃ names, get_s3_file_names_of resp in_folder = inr names)
      ↔ Forall (fun key => "/"%char ∈ Py.chars key)
          (ls_s3_files (Key <$> objs) in_folder))
     ∧ (get_s3_file_names_of resp in_folder = inl IndexError
        ↔ ∃ key, key ∈ ls_s3_files (Key <$> objs) in_folder
                 ∧ "/"%char ∉ Py.chars key))
  ∧ (∀ objs d names,
       "/"%char ∉ Py.chars d ->
       Forall (fun n => ("/"%char ∉ Py.chars n) ∧ n <> "") names ->
       Key <$> objs = (fun n => d +:+ "/" +:+ n) <$> names ->
       get_s3_file_names_of (Response (Some objs)) None = inr names)
  ∧ (∀ resp objs in_folder names,
     Contents resp = Some objs ->
     get_s3_file_names_of resp in_folder = inr names ->
     Forall2 (fun key name => Py.split key "/"%char !! 1%nat = Some name)
       (ls_s3_files (Key <$> objs) in_folder) names)
  ∧ (∀ key, "/"%char ∉ Py.chars key -> second_segment key = inl IndexError)
  ∧ (∀ resp objs key,
       Contents resp = Some objs -> key ∈ Key <$> objs ->
       "/"%char ∉ Py.chars key ->
       get_s3_file_names_of resp None = inl IndexError)
  ∧ (∀ folder rest,
       "/"%char ∉ Py.chars folder ->
       (second_segment (folder +:+ "/" +:+ rest) = inr rest
        ↔ "/"%char ∉ Py.chars rest))
  ∧ (∀ folder sub rest,
       "/"%char ∉ Py.chars folder -> "/"%char ∉ Py.chars sub ->
       second_segment (folder +:+ "/" +:+ sub +:+ "/" +:+ rest) = inr sub
       ∧ sub <> sub +:+ "/" +:+ rest).
Proof.
  split; [|split; [|split; [|split; [|split; [|split]]]]].
  - intros resp objs f Hc. unfold get_s3_file_names_of, get_Contents.
    rewrite Hc. split; [split|split].
    + intros [names H%comprehension_returns]. apply Forall_forall.
      intros key [i Hi]%list_elem_of_lookup.
      destruct (Forall2_lookup_l _ _ _ _ _ H Hi) as (name & _ & Hname).
      apply second_segment_returns_iff. by exists name.
    + intros H. apply comprehension_total. intros key Hkey.
      apply second_segment_returns_iff. rewrite Forall_forall in H. by apply H.
    + intros (key & Hin & Hkey)%comprehension_raises. exists key.
      split; [done|]. intros Hs.
      apply second_segment_returns_iff in Hs as [seg Hseg]. congruence.
    + intros (key & Hin & Hkey). apply comprehension_stops with key; [done| |].
      * by apply second_segment_no_slash.
      * apply second_segment_raises.
  - intros objs d names Hd Hnames Hkeys.
    unfold get_s3_file_names_of, get_Contents. simpl. rewrite Hkeys.
    unfold ls_s3_files. simpl. rewrite filter_all.
    + apply comprehension_one_level; [done|].
      eapply Forall_impl; [exact Hnames|]. by intros n [? _].
    + intros key (n & -> & Hn)%list_elem_of_fmap.
      rewrite Forall_forall in Hnames. destruct (Hnames n Hn) as [Hs Hne].
      rewrite <- append_assoc. by apply not_endswith_slash.
  - intros resp objs f names Hc. unfold get_s3_file_names_of, get_Contents.
    rewrite Hc. intros H%comprehension_returns.
    eapply Forall2_impl; [exact H|]. intros key name. simpl.
    unfold second_segment. destruct (_ !! _); congruence.
  - apply second_segment_no_slash.
  - intros resp objs key Hc Hin Hk. unfold get_s3_file_names_of, get_Contents.
    rewrite Hc. apply comprehension_stops with key.
    + unfold ls_s3_files. simpl. apply list_elem_of_filter. split; [|done].
      by apply no_slash_not_folder.
    + by apply second_segment_no_slash.
    + apply second_segment_raises.
  - intros folder rest Hf.
    destruct (second_segment_folder folder rest Hf) as (seg & E & _ & Hiff).
    rewrite E, <- Hiff. split; congruence.
  - intros folder sub rest Hf Hs.
    assert ("/"%char ∈ Py.chars (sub +:+ "/" +:+ rest)) as Hin.
    { rewrite chars_app. apply elem_of_app. right. left. }
    split.
    + unfold second_segment, Py.split.
      rewrite chars_app.
      change (Py.chars ("/" +:+ sub +:+ "/" +:+ rest))
        with ("/"%char :: Py.chars (sub +:+ "/" +:+ rest)).
      rewrite (split_chars_app_sep _ _ _ Hf), chars_app.
      change (Py.chars ("/" +:+ rest)) with ("/"%char :: Py.chars rest).
      rewrite (split_chars_app_sep _ _ _ Hs). simpl. by rewrite str_chars.
    + intros E. apply Hs. by rewrite E.
Qed.

Lemma get_s3_file_names_second_segment_witness :
  second_segment "zip_daily_files/L2_20200115.zip" = inr "L2_20200115.zip"
  ∧ second_segment "zip_daily_files/2020/L2_20200115.zip" = inr "2020"
  ∧ second_segment "L2_20200115.zip" = inl IndexError
  ∧ get_s3_file_names_of
      (Response (Some [S3Object "zip_daily_files/L2_20200101.zip" 1;
                       S3Object "zip_daily_files/L2_20200102.zip" 1]))
      None
    = inr ["L2_20200101.zip"; "L2_20200102.zip"].
Proof.
  destruct get_s3_file_names_second_segment as (_ & H0 & _ & H1 & _ & H2 & H3).
  split; [|split; [|split]].
  - apply (H2 "zip_daily_files" "L2_20200115.zip"); decide_by_compute.
  - apply (H3 "zip_daily_files" "2020" "L2_20200115.zip"); decide_by_compute.
  - apply H1. decide_by_compute.
  - apply (H0 _ "zip_daily_files"); [decide_by_compute..|reflexivity].
Defined.

(** ** Loops in the exception monad *)

Lemma for_each_app {A} (body : A -> M unit) (xs ys : list A) (w : world) :
  for_each body (xs ++ ys) w =
  match for_each body xs w with
  | (w', inr _) => for_each body ys w'
  | (w', inl e) => (w', inl e)
  end.
Proof.
  revert w. induction xs as [|x xs IH]; intros w; simpl; [done|].
  unfold bind. destruct (body x w) as [w' [e|[]]]; [done|]. apply IH.
Qed.

Lemma for_each_cons_raises {A} (body : A -> M unit) (x : A) (xs : list A)
    (w w' : world) (e : exn) :
  body x w = (w', inl e) -> for_each body (x :: xs) w = (w', inl e).
Proof. intros H. simpl. unfold bind. by rewrite H. Qed.

(** ** The transfer loop *)

Section Transfer.

Variable fl : faults.
Variable in_folder : string.

(** What one iteration of the download loop does, case by case. *)
Lemma transfer_eq (f : string) (w : world) :
  transfer fl in_folder f w =
  let key := in_folder +:+ f in
  let created := <[f := []]> (local w) in
  let at_retr := log w ++ [EvRetr f] in
  match ftp_files w !! f with
  | None =>
      (World (ftp_dir w) (ftp_files w) (s3 w) created at_retr,
       inl (FtpError f))
  | Some data =>
      if retr_fails fl f then
        (World (ftp_dir w) (ftp_files w) (s3 w)
           (<[f := received_part fl f data]> created) at_retr,
         inl (FtpError f))
      else if upload_fails fl key then
        (World (ftp_dir w) (ftp_files w) (s3 w) (<[f := data]> created)
           (at_retr ++ [EvUpload key]),
         inl (S3UploadFailedError key))
      else if remove_fails fl f then
        (World (ftp_dir w) (ftp_files w) (<[key := data]> (s3 w))
           (<[f := data]> created)
           ((at_retr ++ [EvUpload key]) ++ [EvRemove f]),
         inl (OSError f))
      else
        (World (ftp_dir w) (ftp_files w) (<[key := data]> (s3 w))
           (delete f (<[f := data]> created))
           ((at_retr ++ [EvUpload key]) ++ [EvRemove f]),
         inr tt)
  end.
Proof.
  unfold transfer, retrbinary, upload_file, os_remove.
  unfold bind, get_world, emit, set_local, set_s3, raise. simpl.
  destruct (ftp_files w !! f) as [data|]; [|done].
  destruct (retr_fails fl f); [done|]. simpl.
  rewrite lookup_insert_eq.
  destruct (upload_fails fl (in_folder +:+ f)); [done|]. simpl.
  rewrite lookup_insert_eq.
  by destruct (remove_fails fl f).
Qed.

(** A run of the loop that returns has staged every file of its queue
    and has touched no other key. *)
Lemma transfer_loop_returns (queue : list string) (w w1 : world) :
  transfer_loop fl in_folder queue w = (w1, inr tt) ->
  ftp_files w1 = ftp_files w
  ∧ (∀ x, x ∈ queue ->
       is_Some (ftp_files w !! x)
       ∧ s3 w1 !! (in_folder +:+ x) = ftp_files w !! x)
  ∧ (∀ k, (∀ x, x ∈ queue -> k <> in_folder +:+ x) ->
       s3 w1 !! k = s3 w !! k)
  ∧ log w1 = log w ++
      flat_map (fun x => [EvRetr x; EvUpload (in_folder +:+ x); EvRemove x]) queue.
Proof.
  unfold transfer_loop. revert w.
  induction queue as [|y queue IH]; intros w; simpl.
  - intros [= <-]. rewrite app_nil_r.
    split; [done|]. split; [|by split].
    intros x Hx; by apply elem_of_nil in Hx.
  - unfold bind. rewrite transfer_eq. cbv zeta.
    destruct (ftp_files w !! y) as [data|] eqn:Hy; [|done].
    destruct (retr_fails fl y); [done|].
    destruct (upload_fails fl (in_folder +:+ y)); [done|].
    destruct (remove_fails fl y); [done|].
    intros H. apply IH in H as (Hftp & Hin & Hout & Hlog). simpl in *.
    split; [done|]. split; [|split].
    + intros x Hx.
      destruct (decide (x ∈ queue)) as [Hq|Hq]; [by apply Hin|].
      apply elem_of_cons in Hx as [->|?]; [|done].
      rewrite Hy. split; [by eexists|].
      rewrite Hout; [by rewrite lookup_insert_eq|].
      intros x' Hx' E. apply (inj (String.append in_folder)) in E. by subst.
    + intros k Hk. rewrite Hout.
      * rewrite lookup_insert_ne; [done|]. intros E. eapply Hk; [left|done].
      * intros x Hx. apply Hk. by right.
    + rewrite Hlog. by rewrite <- !app_assoc.
Qed.

End Transfer.

Lemma get_ftp_to_s3_eq (fl : faults) (list_of_set : gset string -> list string)
    (in_folder : string) (w : world) (staged : list string) :
  get_s3_file_names_of (list_objects (s3 w)) (Some in_folder) = inr staged ->
  get_ftp_to_s3 fl list_of_set in_folder w =
  let queue := list_of_set (missing (classifyDaily (ftp_dir w)) staged) in
  if decide (0 < length queue)%nat
  then transfer_loop fl in_folder queue w
  else (w, inr tt).
Proof.
  intros Hs. unfold get_ftp_to_s3, get_s3_file_names, bind, get_world, lift.
  rewrite Hs. cbv zeta. fold (classifyDaily (ftp_dir w)).
  by destruct (decide _).
Qed.

(** C6: a failing retrieval or upload ends the whole download loop with
    the exception.  When the files before [f] were transferred and [f]
    fails, the loop over [pre ++ f :: post] stops at [f]: the bucket is as
    the files of [pre] left it, each of them staged with the content served
    by the FTP site; after a failed retrieval no upload is attempted, after a
    failed upload nothing follows it, and no call is made for [post].  The
    exception leaves [get_ftp_to_s3], and the second stage is not run. *)
Theorem transfer_failure_is_fatal (fl : faults) (in_folder : string)
    (pre : list string) (f : string) (post : list string) (w w1 : world) :
  transfer_loop fl in_folder pre w = (w1, inr tt) ->
  retr_fails fl f = true ∨ ftp_files w !! f = None
    ∨ upload_fails fl (in_folder +:+ f) = true ->
  ∃ w2 e,
    transfer_loop fl in_folder (pre ++ f :: post) w = (w2, inl e)
    ∧ s3 w2 = s3 w1
    ∧ (∀ x, x ∈ pre ->
         is_Some (ftp_files w !! x)
         ∧ s3 w2 !! (in_folder +:+ x) = ftp_files w !! x)
    ∧ ((e = FtpError f ∧ log w2 = log w1 ++ [EvRetr f])
       ∨ (e = S3UploadFailedError (in_folder +:+ f)
          ∧ log w2 = (log w1 ++ [EvRetr f]) ++ [EvUpload (in_folder +:+ f)]))
    ∧ log w1 = log w ++
        flat_map (fun x => [EvRetr x; EvUpload (in_folder +:+ x); EvRemove x]) pre
    ∧ ∀ (list_of_set : gset string -> list string) (staged : list string),
        get_s3_file_names_of (list_objects (s3 w)) (Some in_folder) = inr staged ->
        list_of_set (missing (classifyDaily (ftp_dir w)) staged) = pre ++ f :: post ->
        get_ftp_to_s3 fl list_of_set in_folder w = (w2, inl e)
        ∧ ∀ ZipFile in_unzipfolder,
            run_stages fl list_of_set ZipFile in_folder in_unzipfolder w
            = (w2, inl e).
Proof.
  intros Hpre Hfail.
  destruct (transfer_loop_returns _ _ _ _ _ Hpre) as (Hftp & Hin & _ & Hlog).
  cut (∃ w2 e,
    transfer_loop fl in_folder (pre ++ f :: post) w = (w2, inl e)
    ∧ s3 w2 = s3 w1
    ∧ ((e = FtpError f ∧ log w2 = log w1 ++ [EvRetr f])
       ∨ (e = S3UploadFailedError (in_folder +:+ f)
          ∧ log w2 = (log w1 ++ [EvRetr f]) ++ [EvUpload (in_folder +:+ f)]))).
  { intros (w2 & e & Hrun & Hs3 & He). exists w2, e.
    split; [done|]. split; [done|].
    split; [intros x Hx; rewrite Hs3; by apply Hin|].
    split; [done|]. split; [done|].
    intros los staged Hst Hq.
    assert (get_ftp_to_s3 fl los in_folder w = (w2, inl e)) as Hstage.
    { rewrite (get_ftp_to_s3_eq _ _ _ _ _ Hst), Hq.
      rewrite decide_True; [done|]. rewrite length_app. simpl. lia. }
    split; [done|]. intros ZipFile in_unzipfolder.
    unfold run_stages, bind. by rewrite Hstage. }
  clear Hin Hlog.
  unfold transfer_loop in *. rewrite for_each_app, Hpre.
  simpl. unfold bind. rewrite transfer_eq. cbv zeta. rewrite Hftp.
  destruct (ftp_files w !! f) as [data|] eqn:Hf.
  - destruct (retr_fails fl f) eqn:Hr.
    { eexists _, _. split; [done|]. simpl. split; [done|]. by left. }
    destruct (upload_fails fl (in_folder +:+ f)) eqn:Hu.
    { eexists _, _. split; [done|]. simpl. split; [done|]. by right. }
    destruct Hfail as [?|[?|?]]; congruence.
  - eexists _, _. split; [done|]. simpl. split; [done|]. by left.
Qed.

Lemma transfer_failure_is_fatal_witness :
  ∃ w2 e,
    transfer_loop (retr_fault "L2_20200102.zip") "zip_daily_files/"
      (["L2_20200101.zip"] ++ "L2_20200102.zip" :: ["L2_20200103.zip"])
      scenario_A = (w2, inl e)
    ∧ s3 w2 !! "zip_daily_files/L2_20200101.zip" = Some [x01]
    ∧ s3 w2 !! "zip_daily_files/L2_20200102.zip" = None
    ∧ e = FtpError "L2_20200102.zip".
Proof.
  destruct (transfer_failure_is_fatal (retr_fault "L2_20200102.zip")
              "zip_daily_files/" ["L2_20200101.zip"] "L2_20200102.zip"
              ["L2_20200103.zip"] scenario_A
              (transfer_loop (retr_fault "L2_20200102.zip") "zip_daily_files/"
                 ["L2_20200101.zip"] scenario_A).1)
    as (w2 & e & Hrun & Hs3 & Hpre & He & _ & _).
  - vm_compute. reflexivity.
  - left. reflexivity.
  - exists w2, e. split; [exact Hrun|].
    split; [|split].
    + destruct (Hpre "L2_20200101.zip") as [_ H1]; [left|]. exact H1.
    + rewrite Hs3. vm_compute. reflexivity.
    + destruct He as [[-> _]|[-> Hlog]]; [reflexivity|].
      exfalso. vm_compute in Hrun. discriminate Hrun.
Defined.

(** C7 (as amended): [os.remove] is called without any handler, so its
    failure after a successful upload raises out of the loop: the file is
    staged and its local copy is left behind, no later file of the queue
    is retrieved or uploaded, and the exception ends the run before the
    second stage. *)
Theorem cleanup_failure_is_fatal (fl : faults) (in_folder : string)
    (f : string) (post : list string) (w : world) (data : bytes) :
  ftp_files w !! f = Some data ->
  retr_fails fl f = false ->
  upload_fails fl (in_folder +:+ f) = false ->
  remove_fails fl f = true ->
  ∃ w',
    transfer_loop fl in_folder (f :: post) w = (w', inl (OSError f))
    ∧ s3 w' = <[in_folder +:+ f := data]> (s3 w)
    ∧ local w' !! f = Some data
    ∧ log w' = log w ++ [EvRetr f; EvUpload (in_folder +:+ f); EvRemove f]
    ∧ ∀ (list_of_set : gset string -> list string) (staged : list string),
        get_s3_file_names_of (list_objects (s3 w)) (Some in_folder) = inr staged ->
        list_of_set (missing (classifyDaily (ftp_dir w)) staged) = f :: post ->
        get_ftp_to_s3 fl list_of_set in_folder w = (w', inl (OSError f))
        ∧ ∀ ZipFile in_unzipfolder,
            run_stages fl list_of_set ZipFile in_folder in_unzipfolder w
            = (w', inl (OSError f)).
Proof.
  intros Hf Hr Hu Hd.
  assert (∃ w', transfer_loop fl in_folder (f :: post) w = (w', inl (OSError f))
    ∧ s3 w' = <[in_folder +:+ f := data]> (s3 w)
    ∧ local w' !! f = Some data
    ∧ log w' = log w ++ [EvRetr f; EvUpload (in_folder +:+ f); EvRemove f])
    as (w' & Hrun & Hrest).
  { unfold transfer_loop. simpl. unfold bind.
    rewrite transfer_eq. cbv zeta. rewrite Hf, Hr, Hu, Hd.
    eexists. split; [done|]. simpl. split; [done|].
    split; [by rewrite lookup_insert_eq|]. by rewrite <- !app_assoc. }
  exists w'. split; [done|].
  destruct Hrest as (? & ? & ?). repeat (split; [done|]).
  intros los staged Hst Hq.
  assert (get_ftp_to_s3 fl los in_folder w = (w', inl (OSError f))) as Hstage.
  { rewrite (get_ftp_to_s3_eq _ _ _ _ _ Hst), Hq.
    rewrite decide_True; [done|]. simpl. lia. }
  split; [done|]. intros ZipFile in_unzipfolder.
  unfold run_stages, bind. by rewrite Hstage.
Qed.

Lemma cleanup_failure_is_fatal_witness :
  ∃ w',
    transfer_loop (remove_fault "L2_20200101.zip") "zip_daily_files/"
      ["L2_20200101.zip"; "L2_20200102.zip"] scenario_A
    = (w', inl (OSError "L2_20200101.zip"))
    ∧ s3 w' !! "zip_daily_files/L2_20200101.zip" = Some [x01]
    ∧ s3 w' !! "zip_daily_files/L2_20200102.zip" = None.
Proof.
  destruct (cleanup_failure_is_fatal (remove_fault "L2_20200101.zip")
              "zip_daily_files/" "L2_20200101.zip" ["L2_20200102.zip"]
              scenario_A [x01])
    as (w' & Hrun & Hs3 & _); [reflexivity..|].
  exists w'. split; [exact Hrun|]. rewrite Hs3. split; reflexivity.
Defined.

(** The same queue with and without a failing [os.remove]: the failure
    changes the outcome of the run from a normal return to an exception,
    and the second file is no longer staged. *)
Lemma cleanup_failure_changes_outcome :
  let queue := ["L2_20200101.zip"; "L2_20200102.zip"] in
  let clean := transfer_loop no_faults "zip_daily_files/" queue scenario_A in
  let faulty :=
    transfer_loop (remove_fault "L2_20200101.zip") "zip_daily_files/" queue
      scenario_A in
  clean.2 = inr tt
  ∧ s3 clean.1 !! "zip_daily_files/L2_20200102.zip" = Some [x02]
  ∧ faulty.2 = inl (OSError "L2_20200101.zip")
  ∧ s3 faulty.1 !! "zip_daily_files/L2_20200101.zip" = Some [x01]
  ∧ s3 faulty.1 !! "zip_daily_files/L2_20200102.zip" = None
  ∧ faulty.2 <> clean.2.
Proof. cbv zeta. repeat split; by vm_compute. Qed.

(** ** Archive expansion *)

Lemma sorted_list_perm (s : gset string) : sorted_list s ≡ₚ elements s.
Proof. apply merge_sort_Permutation. Qed.

Lemma NameToInfo_lookup (z : zip_archive) (n : string) (d : bytes) :
  NoDup (namelist z) -> (n, d) ∈ filelist z -> NameToInfo z !! n = Some d.
Proof.
  unfold NameToInfo, namelist. generalize (filelist z). clear z.
  induction l as [|e l IH] using rev_ind; [by intros _ ?%elem_of_nil|].
  rewrite fmap_app, foldl_snoc. simpl. intros Hnd Hin.
  apply NoDup_app in Hnd as (Hl & Hdisj & _).
  apply elem_of_app in Hin as [Hin|Hin].
  - rewrite lookup_insert_ne; [by apply IH|].
    intros <-. eapply Hdisj; [|left].
    apply list_elem_of_fmap. by exists (e.1, d).
  - apply list_elem_of_singleton in Hin as <-. simpl. apply lookup_insert_eq.
Qed.

Section Expand.

Variable fl : faults.
Variable ZipFile : bytes -> option zip_archive.
Variables in_zipfolder in_unzipfolder : string.

Lemma published_keys_fresh (n : string) (es : list (string * bytes)) :
  n ∉ es.*1 -> in_unzipfolder +:+ n ∉ (published in_unzipfolder es).*1.
Proof.
  intros Hn Hin. apply Hn. unfold published in Hin.
  rewrite <- list_fmap_compose in Hin.
  apply list_elem_of_fmap in Hin as (e & E & He). simpl in E.
  apply (inj (String.append in_unzipfolder)) in E. subst.
  apply list_elem_of_fmap. by exists e.
Qed.

Lemma NoDup_published (es : list (string * bytes)) :
  NoDup es.*1 -> NoDup (published in_unzipfolder es).*1.
Proof.
  induction es as [|e es IH]; simpl; [constructor|].
  intros [Hn Hnd]%NoDup_cons. constructor; [|by apply IH].
  by apply published_keys_fresh.
Qed.

(** The inner loop over part of the entries of [z]: one upload per
    entry, in order, and the bucket overlaid with the entries. *)
Lemma publish_entries (z : zip_archive) (es : list (string * bytes)) (w : world) :
  NoDup es.*1 ->
  (∀ e, e ∈ es -> NameToInfo z !! e.1 = Some e.2) ->
  (∀ e, e ∈ es -> upload_fails fl (in_unzipfolder +:+ e.1) = false) ->
  for_each
    (fun name =>
       let* data := lift (zopen z name) in
       upload_fileobj fl data (in_unzipfolder +:+ name))
    es.*1 w
  = (World (ftp_dir w) (ftp_files w)
       (list_to_map (published in_unzipfolder es) ∪ s3 w) (local w)
       (log w ++ ((fun e => EvUpload (in_unzipfolder +:+ e.1)) <$> es)),
     inr tt).
Proof.
  revert w. induction es as [|e es IH]; intros w Hnd Hz Hup; simpl.
  - rewrite app_nil_r. unfold ret. rewrite (left_id_L ∅ (∪)). by destruct w.
  - apply NoDup_cons in Hnd as [Hn Hnd].
    unfold bind at 1. unfold bind at 1. unfold lift, zopen.
    rewrite (Hz e) by left. unfold upload_fileobj, bind, emit.
    rewrite (Hup e) by left. unfold set_s3. simpl.
    rewrite IH; [|done|intros; apply Hz; by right|intros; apply Hup; by right].
    simpl. f_equal. f_equal.
    + rewrite <- insert_union_r, insert_union_l; [done|].
      apply not_elem_of_list_to_map_1. by apply published_keys_fresh.
    + by rewrite <- app_assoc.
Qed.

End Expand.

(** C8 (as amended): expanding a valid archive whose member names are
    pairwise distinct uploads one object per member, in the order of the
    archive, under the key made of the publish prefix and the member's own
    name, with the member's bytes as content; the bucket changes at these
    keys only, and gains one object per member when the keys are new. *)
Theorem expand_publishes_members (fl : faults)
    (ZipFile : bytes -> option zip_archive)
    (in_zipfolder in_unzipfolder each_zipfile : string)
    (w : world) (data : bytes) (z : zip_archive) :
  s3 w !! (in_zipfolder +:+ each_zipfile) = Some data ->
  ZipFile data = Some z ->
  NoDup (namelist z) ->
  (∀ n, n ∈ namelist z -> upload_fails fl (in_unzipfolder +:+ n) = false) ->
  ∃ w',
    expand fl ZipFile in_zipfolder in_unzipfolder each_zipfile w = (w', inr tt)
    ∧ log w' = log w ++ ((fun e => EvUpload (in_unzipfolder +:+ e.1)) <$> filelist z)
    ∧ s3 w' = list_to_map (published in_unzipfolder (filelist z)) ∪ s3 w
    ∧ (∀ n d, (n, d) ∈ filelist z -> s3 w' !! (in_unzipfolder +:+ n) = Some d)
    ∧ (∀ k, k ∉ (published in_unzipfolder (filelist z)).*1 ->
         s3 w' !! k = s3 w !! k)
    ∧ ((∀ n, n ∈ namelist z -> s3 w !! (in_unzipfolder +:+ n) = None) ->
       size (s3 w') = (size (s3 w) + length (filelist z))%nat).
Proof.
  intros Hget Hzip Hnd Hup.
  pose proof (NoDup_published in_unzipfolder _ Hnd) as Hndp.
  unfold expand, s3_get, bind, get_world. rewrite Hget. unfold ret.
  rewrite Hzip. unfold publish, namelist. rewrite publish_entries.
  - eexists. split; [done|]. simpl. split; [done|]. split; [done|].
    split; [|split].
    + intros n d Hin. apply lookup_union_Some_l.
      apply elem_of_list_to_map_1; [done|]. unfold published.
      apply list_elem_of_fmap. by exists (n, d).
    + intros k Hk. apply lookup_union_r. by apply not_elem_of_list_to_map_1.
    + intros Hfresh. rewrite map_size_disj_union.
      * rewrite (map_size_list_to_map _ Hndp). unfold published.
        rewrite length_fmap. lia.
      * apply map_disjoint_spec. intros k x y Hx Hy.
        apply elem_of_list_to_map_2 in Hx. unfold published in Hx.
        apply list_elem_of_fmap in Hx as ([n d] & [= -> ->] & Hin).
        rewrite Hfresh in Hy; [done|]. apply list_elem_of_fmap. by exists (n, d).
  - exact Hnd.
  - intros [n d] Hin. by apply NameToInfo_lookup.
  - intros e Hin. apply Hup. apply list_elem_of_fmap. by exists e.
Qed.

Lemma expand_publishes_members_witness :
  ∃ w',
    expand no_faults ZipFile_ex "zip_daily_files/" "unzip_daily_files/"
      "L2_20200115.zip" scenario_B = (w', inr tt)
    ∧ log w' = [EvUpload "unzip_daily_files/options_a.txt";
                EvUpload "unzip_daily_files/options_b.txt"]
    ∧ s3 w' !! "unzip_daily_files/options_a.txt" = Some [x61; x61]
    ∧ s3 w' !! "unzip_daily_files/options_b.txt" = Some [x62]
    ∧ size (s3 w') = 3%nat.
Proof.
  destruct (expand_publishes_members no_faults ZipFile_ex "zip_daily_files/"
              "unzip_daily_files/" "L2_20200115.zip" scenario_B blob_B archive_B)
    as (w' & Hrun & Hlog & _ & Hin & _ & Hsize).
  - reflexivity.
  - reflexivity.
  - decide_by_compute.
  - intros n _. reflexivity.
  - exists w'. split; [exact Hrun|]. split; [exact Hlog|].
    split; [|split].
    + apply (Hin "options_a.txt"). left.
    + apply (Hin "options_b.txt"). right. left.
    + rewrite Hsize; [reflexivity|].
      apply Forall_forall. decide_by_compute.
Defined.

(** An archive that carries one member name twice: both uploads go to the
    same key with the content of the later entry, so that two members leave
    one object, and the bytes of the first member are published nowhere. *)
Lemma expand_duplicate_member_names :
  let r := expand no_faults ZipFile_ex "zip_daily_files/" "unzip_daily_files/"
             "L2_20200115.zip" scenario_dup in
  s3 scenario_dup !! "zip_daily_files/L2_20200115.zip" = Some blob_dup
  ∧ ZipFile_ex blob_dup = Some archive_dup
  ∧ filelist archive_dup = [("options_a.txt", [x01]); ("options_a.txt", [x02])]
  ∧ r.2 = inr tt
  ∧ log r.1 = [EvUpload "unzip_daily_files/options_a.txt";
               EvUpload "unzip_daily_files/options_a.txt"]
  ∧ size (s3 r.1) = (size (s3 scenario_dup) + 1)%nat
  ∧ s3 r.1 !! "unzip_daily_files/options_a.txt" = Some [x02]
  ∧ ¬ ∃ k, s3 r.1 !! k = Some [x01].
Proof.
  cbv zeta. repeat split; try by vm_compute.
  intros [k Hk].
  assert (map_Forall (fun _ v => v <> [x01])
            (s3 (expand no_faults ZipFile_ex "zip_daily_files/"
                   "unzip_daily_files/" "L2_20200115.zip" scenario_dup).1)) as HF
    by decide_by_compute.
  exact (HF k _ Hk eq_refl).
Qed.

(** ** A corrupt archive *)

Lemma unzip_s3_files_eq (fl : faults) (list_of_set : gset string -> list string)
    (ZipFile : bytes -> option zip_archive)
    (in_zipfolder in_unzipfolder : string) (w : world) (zs us : list string) :
  get_s3_file_names_of (list_objects (s3 w)) (Some in_zipfolder) = inr zs ->
  get_s3_file_names_of (list_objects (s3 w)) (Some in_unzipfolder) = inr us ->
  unzip_s3_files fl list_of_set ZipFile in_zipfolder in_unzipfolder w
  = expand_loop fl ZipFile in_zipfolder in_unzipfolder
      (list_of_set (pendingExpansion zs us)) w.
Proof.
  intros Hz Hu. unfold unzip_s3_files, get_s3_file_names, bind, get_world, lift.
  by rewrite Hz, Hu.
Qed.

(** The uploads of the readable members of a damaged archive: an initial
    part of them is attempted, in order, and the bucket changes at their
    keys only. *)
Lemma upload_readable (fl : faults) (in_unzipfolder : string)
    (readable : list (string * bytes)) (w : world) :
  ∃ w2 r k,
    for_each
      (fun member => upload_fileobj fl member.2 (in_unzipfolder +:+ member.1))
      readable w = (w2, r)
    ∧ log w2 = log w ++
        ((fun m => EvUpload (in_unzipfolder +:+ m.1)) <$> take k readable)
    ∧ (∀ key, key ∉ (published in_unzipfolder readable).*1 ->
         s3 w2 !! key = s3 w !! key)
    ∧ ((∀ m, m ∈ readable -> upload_fails fl (in_unzipfolder +:+ m.1) = false) ->
       r = inr tt
       ∧ log w2 = log w ++
           ((fun m => EvUpload (in_unzipfolder +:+ m.1)) <$> readable)
       ∧ ∀ m, m ∈ readable -> is_Some (s3 w2 !! (in_unzipfolder +:+ m.1))).
Proof.
  revert w. induction readable as [|m rest IH]; intros w.
  - exists w, (inr tt), 0%nat. simpl. rewrite app_nil_r.
    split; [done|]. split; [done|]. split; [done|]. intros _.
    split; [done|]. split; [done|]. intros m Hm. by apply elem_of_nil in Hm.
  - simpl. unfold bind at 1. unfold upload_fileobj at 1, bind at 1, emit at 1.
    destruct (upload_fails fl (in_unzipfolder +:+ m.1)) eqn:Hu.
    + eexists _, _, 1%nat. split; [reflexivity|]. simpl.
      split; [by rewrite ?take_0|]. split; [done|].
      intros Hok. rewrite (Hok m) in Hu by left. done.
    + unfold set_s3. simpl.
      destruct (IH (World (ftp_dir w) (ftp_files w)
                      (<[in_unzipfolder +:+ m.1 := m.2]> (s3 w)) (local w)
                      (log w ++ [EvUpload (in_unzipfolder +:+ m.1)])))
        as (w2 & r & k & Hrun & Hlog & Hframe & Hall).
      exists w2, r, (S k). split; [exact Hrun|]. simpl in *.
      split; [by rewrite Hlog, <- app_assoc|]. split.
      * intros key Hkey. apply not_elem_of_cons in Hkey as [Hne Hkey].
        rewrite (Hframe key Hkey). by rewrite lookup_insert_ne.
      * intros Hok. destruct Hall as (Hr & Hlog' & Hsome).
        { intros m' Hm'. apply Hok. by right. }
        split; [done|]. split; [by rewrite Hlog', <- app_assoc|].
        intros m' Hm'.
        destruct (decide (in_unzipfolder +:+ m'.1
                          ∈ (published in_unzipfolder rest).*1)) as [Hin|Hnin].
        -- unfold published in Hin. rewrite <- list_fmap_compose in Hin.
           apply list_elem_of_fmap in Hin as (m'' & E & Hm''). simpl in E.
           rewrite E. by apply Hsome.
        -- apply elem_of_cons in Hm' as [->|Hm'].
           ++ rewrite (Hframe _ Hnin), lookup_insert_eq. by eexists.
           ++ destruct Hnin. unfold published. rewrite <- list_fmap_compose.
              apply list_elem_of_fmap. by exists m'.
Qed.

(** C1 (as amended): the expansion of a staged object that is not a valid
    archive ends with an exception, and no handler catches it: it leaves
    the loop over the archives and [unzip_s3_files].  The archives before it
    in the queue have been expanded and the object itself has been
    downloaded.  When [zipfile.ZipFile] refuses the bytes, the exception is
    [BadZipFile] and the state is the one reached when the object was taken
    from the queue.  When a member cannot be opened or read, uploads have
    been made for members listed before it, in order, and for nothing else;
    if they all succeed the exception is the one of the damaged member.  In
    both cases no upload is made for an archive that comes later in the
    queue. *)
Theorem corrupt_archive_is_fatal (fl : faults)
    (ZipFile : bytes -> option zip_archive)
    (in_zipfolder in_unzipfolder : string)
    (pre : list string) (X : string) (post : list string)
    (w w1 : world) (data : bytes) :
  expand_loop fl ZipFile in_zipfolder in_unzipfolder pre w = (w1, inr tt) ->
  s3 w1 !! (in_zipfolder +:+ X) = Some data ->
  ZipFile data = None ->
  ∃ w2 e,
    expand_loop fl ZipFile in_zipfolder in_unzipfolder (pre ++ X :: post) w
    = (w2, inl e)
    ∧ (∀ (list_of_set : gset string -> list string) (zs us : list string),
         get_s3_file_names_of (list_objects (s3 w)) (Some in_zipfolder) = inr zs ->
         get_s3_file_names_of (list_objects (s3 w)) (Some in_unzipfolder) = inr us ->
         list_of_set (pendingExpansion zs us) = pre ++ X :: post ->
         unzip_s3_files fl list_of_set ZipFile in_zipfolder in_unzipfolder w
         = (w2, inl e))
    ∧ (damaged fl data = None -> w2 = w1 ∧ e = BadZipFile X)
    ∧ (∀ readable e',
         damaged fl data = Some (readable, e') ->
         (∃ k, log w2 = log w1 ++
                 ((fun m => EvUpload (in_unzipfolder +:+ m.1)) <$> take k readable))
         ∧ (∀ key, key ∉ (published in_unzipfolder readable).*1 ->
              s3 w2 !! key = s3 w1 !! key)
         ∧ ((∀ m, m ∈ readable ->
                  upload_fails fl (in_unzipfolder +:+ m.1) = false) ->
            e = e'
            ∧ log w2 = log w1 ++
                ((fun m => EvUpload (in_unzipfolder +:+ m.1)) <$> readable)
            ∧ ∀ m, m ∈ readable ->
                   is_Some (s3 w2 !! (in_unzipfolder +:+ m.1)))).
Proof.
  intros Hpre Hget Hzip.
  cut (∃ w2 e,
    expand fl ZipFile in_zipfolder in_unzipfolder X w1 = (w2, inl e)
    ∧ (damaged fl data = None -> w2 = w1 ∧ e = BadZipFile X)
    ∧ (∀ readable e',
         damaged fl data = Some (readable, e') ->
         (∃ k, log w2 = log w1 ++
                 ((fun m => EvUpload (in_unzipfolder +:+ m.1)) <$> take k readable))
         ∧ (∀ key, key ∉ (published in_unzipfolder readable).*1 ->
              s3 w2 !! key = s3 w1 !! key)
         ∧ ((∀ m, m ∈ readable ->
                  upload_fails fl (in_unzipfolder +:+ m.1) = false) ->
            e = e'
            ∧ log w2 = log w1 ++
                ((fun m => EvUpload (in_unzipfolder +:+ m.1)) <$> readable)
            ∧ ∀ m, m ∈ readable ->
                   is_Some (s3 w2 !! (in_unzipfolder +:+ m.1))))).
  { intros (w2 & e & Hx & Hnone & Hsome). exists w2, e.
    assert (expand_loop fl ZipFile in_zipfolder in_unzipfolder
              (pre ++ X :: post) w = (w2, inl e)) as Hloop.
    { unfold expand_loop in *. rewrite for_each_app, Hpre.
      by apply for_each_cons_raises. }
    split; [exact Hloop|]. split; [|by split].
    intros los zs us Hz Hu Hq.
    by rewrite (unzip_s3_files_eq _ _ _ _ _ _ _ _ Hz Hu), Hq. }
  unfold expand, s3_get, bind at 1, get_world. unfold bind at 1.
  rewrite Hget. unfold ret. rewrite Hzip.
  destruct (damaged fl data) as [[readable e']|].
  - unfold publish_damaged, bind.
    destruct (upload_readable fl in_unzipfolder readable w1)
      as (w2 & r & k & Hrun & Hlog & Hframe & Hall).
    rewrite Hrun.
    exists w2, (match r with inl e => e | inr _ => e' end).
    split; [by destruct r as [e|[]]|]. split; [done|].
    intros readable0 e0 [= <- <-].
    split; [by exists k|]. split; [exact Hframe|].
    intros Hok. destruct (Hall Hok) as (-> & Hlog' & Hsome). done.
  - exists w1, (BadZipFile X). split; [done|]. split; [done|]. done.
Qed.

Lemma corrupt_archive_is_fatal_witness :
  expand_loop no_faults ZipFile_ex "zip_daily_files/" "unzip_daily_files/"
    ([] ++ "L2_20200101.zip" :: ["L2_20200102.zip"]) scenario_XY
  = (scenario_XY, inl (BadZipFile "L2_20200101.zip")).
Proof.
  destruct (corrupt_archive_is_fatal no_faults ZipFile_ex "zip_daily_files/"
              "unzip_daily_files/" [] "L2_20200101.zip" ["L2_20200102.zip"]
              scenario_XY scenario_XY blob_X)
    as (w2 & e & Hrun & _ & Hnone & _); [reflexivity..|].
  destruct Hnone as [-> ->]; [reflexivity|]. exact Hrun.
Defined.

(** An archive whose second member is damaged: the first member is
    published, then the exception of the damaged member ends the run, and
    the archive that follows in the queue is not expanded. *)
Example damaged_member_run :
  let fl := damaged_fault blob_X [("options_20200101.csv", [x29])]
              (BadZipFile "options_20200101.idx") in
  let run := unzip_s3_files fl sorted_list ZipFile_ex
               "zip_daily_files/" "unzip_daily_files/" scenario_XY in
  run.2 = inl (BadZipFile "options_20200101.idx")
  ∧ log run.1 = [EvUpload "unzip_daily_files/options_20200101.csv"]
  ∧ s3 run.1 !! "unzip_daily_files/options_20200101.csv" = Some [x29]
  ∧ s3 run.1 !! "unzip_daily_files/options_20200102.csv" = None.
Proof. cbv zeta. repeat split; by vm_compute. Qed.

(** The staged set holds a corrupt archive and a valid one.  Enumerated in
    name order, the corrupt archive comes first: [unzip_s3_files] ends with
    [BadZipFile], the bucket is unchanged, and the member of the valid
    archive is not published, although expanding that archive on its own
    would publish it. *)
Lemma corrupt_archive_blocks_valid_one :
  let run := unzip_s3_files no_faults sorted_list ZipFile_ex
               "zip_daily_files/" "unzip_daily_files/" scenario_XY in
  let alone := expand no_faults ZipFile_ex "zip_daily_files/"
                 "unzip_daily_files/" "L2_20200102.zip" scenario_XY in
  ZipFile_ex blob_X = None
  ∧ ZipFile_ex blob_Y = Some archive_Y
  ∧ alone.2 = inr tt
  ∧ s3 alone.1 !! "unzip_daily_files/options_20200102.csv" = Some [x2a]
  ∧ run.2 = inl (BadZipFile "L2_20200101.zip")
  ∧ s3 run.1 = s3 scenario_XY
  ∧ s3 run.1 !! "unzip_daily_files/options_20200102.csv" = None
  ∧ log run.1 = [].
Proof. cbv zeta. repeat split; by vm_compute. Qed.

(** ** End-to-end runs *)

(** Scenario A: the two daily files are transferred, the monthly file is
    not, and a second run finds nothing to do. *)
Example scenario_A_run :
  let r := get_ftp_to_s3 no_faults sorted_list s3_folder_zip scenario_A in
  r.2 = inr tt
  ∧ log r.1 = [EvRetr "L2_20200101.zip";
               EvUpload "zip_daily_files/L2_20200101.zip";
               EvRemove "L2_20200101.zip";
               EvRetr "L2_20200102.zip";
               EvUpload "zip_daily_files/L2_20200102.zip";
               EvRemove "L2_20200102.zip"]
  ∧ s3 r.1 !! "zip_daily_files/L2_20200102.zip" = Some [x02]
  ∧ s3 r.1 !! "zip_daily_files/L2_2020_January.zip" = None
  ∧ local r.1 = ∅
  ∧ get_ftp_to_s3 no_faults sorted_list s3_folder_zip r.1 = (r.1, inr tt).
Proof. cbv zeta. repeat split; by vm_compute. Qed.

(** With nothing at all in the bucket the first stage already stops at the
    listing. *)
Example empty_bucket_run :
  (get_ftp_to_s3 no_faults sorted_list s3_folder_zip
     (World ["L2_20200101.zip"] (<["L2_20200101.zip" := [x01]]> ∅) ∅ ∅ [])).2
  = inl (KeyError "Contents").
Proof. by vm_compute. Qed.

(** Scenario B through the whole second stage, and a second run of it. *)
Example scenario_B_run :
  let r := unzip_s3_files no_faults sorted_list ZipFile_ex
             s3_folder_zip s3_folder_unzip scenario_B in
  r.2 = inr tt
  ∧ log r.1 = [EvUpload "unzip_daily_files/options_a.txt";
               EvUpload "unzip_daily_files/options_b.txt"]
  ∧ s3 r.1 !! "unzip_daily_files/options_a.txt" = Some [x61; x61]
  ∧ s3 r.1 !! "unzip_daily_files/options_b.txt" = Some [x62]
  ∧ size (s3 r.1) = 3%nat.
Proof. cbv zeta. repeat split; by vm_compute. Qed.

(** * Further properties of the script *)

(** ** [get_secret] *)

(** X1: [get_secret] hands back the secret only when the response has a
    ['SecretString'] field; a response without it (a binary secret) raises
    [KeyError] whatever ['SecretBinary'] holds.  A [ClientError] is raised
    again exactly for the five codes of the [except] clause; for any other
    code the error is swallowed and the function returns [None]. *)
Theorem get_secret_outcomes :
  (∀ resp secret,
     get_secret (SecretResponse resp) = inr (Some secret)
     ↔ SecretString resp = Some secret)
  ∧ (∀ binary,
       get_secret (SecretResponse (SecretValue None binary))
       = inl (RaisedKeyError "SecretString"))
  ∧ (∀ code,
       get_secret (SecretClientError code) = inl (RaisedClientError code)
       ↔ code ∈ ["DecryptionFailureException"; "InternalServiceErrorException";
                 "InvalidParameterException"; "InvalidRequestException";
                 "ResourceNotFoundException"])
  ∧ (∀ code,
       get_secret (SecretClientError code) = inr None
       ↔ code ∉ ["DecryptionFailureException"; "InternalServiceErrorException";
                 "InvalidParameterException"; "InvalidRequestException";
                 "ResourceNotFoundException"])
  ∧ (∀ outcome, get_secret outcome = inr None ->
       ∃ code, outcome = SecretClientError code).
Proof.
  split; [|split; [|split; [|split]]].
  - intros resp secret. simpl. destruct (SecretString resp); split; congruence.
  - done.
  - intros code. simpl. rewrite !elem_of_cons, elem_of_nil.
    repeat (destruct (decide _) as [->|?]);
      (split; [intros E; first [discriminate E | tauto] | intros E; tauto]).
  - intros code. simpl. rewrite !elem_of_cons, elem_of_nil.
    repeat (destruct (decide _) as [->|?]);
      (split; [intros E; first [discriminate E | tauto] | intros E; tauto]).
  - intros [resp|code|name]; simpl; [|by eexists|done].
    by destruct (SecretString resp).
Qed.

(** ** Slices and the classification of names *)

Lemma slice_from_end (x : string) (k : nat) :
  (0 < k)%nat ->
  Py.slice x (Some (- Z.of_nat k)) None
  = Py.str (drop (length (Py.chars x) - k) (Py.chars x)).
Proof.
  intros Hk. unfold Py.slice, Py.clamp. cbn [from_option].
  set (cs := Py.chars x). set (n := length cs).
  replace (- Z.of_nat k <? 0) with true by lia.
  replace (Z.to_nat (Z.max (- Z.of_nat k + Z.of_nat n) 0))
    with (n - k)%nat by lia.
  f_equal. apply take_ge. rewrite length_drop. lia.
Qed.

Lemma slice_at (x : string) (i : nat) :
  Py.slice x (Some (Z.of_nat i)) (Some (Z.of_nat (S i)))
  = Py.str (option_list (Py.chars x !! i)).
Proof.
  unfold Py.slice, Py.clamp. cbn [from_option].
  set (cs := Py.chars x).
  replace (Z.of_nat i <? 0) with false by (symmetry; apply Z.ltb_ge; lia).
  replace (Z.of_nat (S i) <? 0) with false by (symmetry; apply Z.ltb_ge; lia).
  rewrite !Nat2Z.id. f_equal.
  destruct (decide (i < length cs)%nat) as [Hlt|Hge].
  - replace (Nat.min i (length cs)) with i by lia.
    replace (Nat.min (S i) (length cs) - i)%nat with 1%nat by lia.
    destruct (lookup_lt_is_Some_2 cs i Hlt) as [c Hc]. rewrite Hc. simpl.
    rewrite (drop_S _ _ _ Hc). done.
  - replace (Nat.min (S i) (length cs) - Nat.min i (length cs))%nat
      with 0%nat by lia.
    rewrite take_0. by rewrite lookup_ge_None_2 by lia.
Qed.

Lemma str_inj (a b : list ascii) : Py.str a = Py.str b -> a = b.
Proof. intros H. by rewrite <- (chars_str a), <- (chars_str b), H. Qed.

Lemma zip_slice_endswith (x : string) :
  Py.slice x (Some (-4)) None = ".zip" ↔ Py.endswith x ".zip" = true.
Proof.
  change (-4) with (- Z.of_nat 4). rewrite slice_from_end by lia.
  unfold Py.endswith. rewrite bool_decide_eq_true.
  set (cs := Py.chars x). split.
  - intros H. exists (take (length cs - 4) cs).
    apply (f_equal Py.chars) in H. rewrite chars_str in H.
    rewrite <- H. by rewrite take_drop.
  - intros [pre E]. rewrite E, length_app.
    change (length (Py.chars ".zip")) with 4%nat.
    replace (length pre + 4 - 4)%nat with (length pre) by lia.
    rewrite drop_app_length. reflexivity.
Qed.

Lemma separator_slice_lookup (x : string) :
  Py.slice x (Some 7) (Some 8) = "_" ↔ Py.chars x !! 7%nat = Some "_"%char.
Proof.
  change 7 with (Z.of_nat 7). change 8 with (Z.of_nat 8). rewrite slice_at.
  destruct (Py.chars x !! 7%nat) as [c|]; simpl; split.
  - intros H. apply (str_inj [c] ["_"%char]) in H. congruence.
  - by intros [= ->].
  - done.
  - done.
Qed.

(** X2: the test [x[-4:] == '.zip'] of the first comprehension is the
    suffix test: the zip names of a listing are exactly its names that end
    in [.zip], so a name of fewer than four characters is never one. *)
Theorem zip_files_are_the_zip_suffixed (ls_ftp_contents : list string) :
  ls_ftp_zip_files ls_ftp_contents
  = filter (fun x => Py.endswith x ".zip" = true) ls_ftp_contents
  ∧ ∀ x, x ∈ ls_ftp_zip_files ls_ftp_contents -> (4 <= String.length x)%nat.
Proof.
  split.
  - unfold ls_ftp_zip_files. apply list_filter_iff. intros x. apply zip_slice_endswith.
  - intros x [Hx _]%list_elem_of_filter. apply zip_slice_endswith in Hx.
    unfold Py.endswith in Hx. apply bool_decide_eq_true in Hx.
    apply suffix_length in Hx. rewrite !chars_length in Hx. exact Hx.
Qed.

(** X3: the monthly and the daily comprehension split the zip names in
    two: a zip name is monthly when its eighth character is ['_'], daily
    otherwise (in particular when it has fewer than eight characters); no
    name is in both lists, and together they hold every zip name once for
    each of its occurrences. *)
Theorem monthly_daily_partition (zip_files : list string) :
  ls_ftp_monthly_files zip_files ++ ls_ftp_daily_files zip_files ≡ₚ zip_files
  ∧ (∀ x, x ∈ ls_ftp_monthly_files zip_files ↔
          x ∈ zip_files ∧ Py.chars x !! 7%nat = Some "_"%char)
  ∧ (∀ x, x ∈ ls_ftp_daily_files zip_files ↔
          x ∈ zip_files ∧ Py.chars x !! 7%nat <> Some "_"%char)
  ∧ (∀ x, x ∈ zip_files -> (String.length x <= 7)%nat ->
          x ∈ ls_ftp_daily_files zip_files)
  ∧ (∀ x, x ∈ ls_ftp_monthly_files zip_files ->
          x ∉ ls_ftp_daily_files zip_files).
Proof.
  unfold ls_ftp_monthly_files, ls_ftp_daily_files.
  split; [apply filter_app_complement|].
  assert (∀ x, x ∈ filter (fun x => Py.slice x (Some 7) (Some 8) <> "_") zip_files
               ↔ x ∈ zip_files ∧ Py.chars x !! 7%nat <> Some "_"%char) as Hd.
  { intros x. rewrite list_elem_of_filter, separator_slice_lookup. tauto. }
  assert (∀ x, x ∈ filter (fun x => Py.slice x (Some 7) (Some 8) = "_") zip_files
               ↔ x ∈ zip_files ∧ Py.chars x !! 7%nat = Some "_"%char) as Hm.
  { intros x. rewrite list_elem_of_filter, separator_slice_lookup. tauto. }
  split; [exact Hm|]. split; [exact Hd|]. split.
  - intros x Hx Hlen. apply Hd. split; [done|].
    rewrite lookup_ge_None_2; [done|]. rewrite chars_length. lia.
  - intros x [_ H1]%Hm [_ H2]%Hd. done.
Qed.

(** ** Splitting a key *)

Lemma split_chars_nonempty (sep : ascii) (cs : list ascii) :
  ∃ seg rest, Py.split_chars sep cs = seg :: rest.
Proof.
  destruct (split_chars_head sep cs) as (seg & rest & E & _). eauto.
Qed.

Lemma join_chars_cons (sep : ascii) (seg seg' : list ascii)
    (rest : list (list ascii)) :
  join_chars sep (seg :: seg' :: rest) = seg ++ sep :: join_chars sep (seg' :: rest).
Proof. reflexivity. Qed.

Lemma join_split_chars (sep : ascii) (cs : list ascii) :
  join_chars sep (Py.split_chars sep cs) = cs.
Proof.
  induction cs as [|c cs IH]; [reflexivity|]. simpl.
  destruct (split_chars_nonempty sep cs) as (seg & rest & E).
  rewrite E in *. destruct (decide (c = sep)) as [->|Hne].
  - by rewrite join_chars_cons, IH.
  - destruct rest as [|seg' rest].
    + simpl in *. by rewrite IH.
    + rewrite join_chars_cons in *. by rewrite <- IH.
Qed.

Lemma split_chars_segments (sep : ascii) (cs : list ascii) :
  Forall (fun seg => sep ∉ seg) (Py.split_chars sep cs).
Proof.
  induction cs as [|c cs IH]; simpl.
  - constructor; [apply not_elem_of_nil | constructor].
  - destruct (decide (c = sep)) as [->|Hne].
    + constructor; [apply not_elem_of_nil | done].
    + destruct (Py.split_chars sep cs) as [|seg rest].
      { constructor; [|constructor].
        apply not_elem_of_cons. split; [congruence | apply not_elem_of_nil]. }
      apply Forall_cons in IH as [Hseg Hrest]. constructor; [|done].
      apply not_elem_of_cons. split; [congruence | done].
Qed.

Lemma chars_str_fmap (segs : list (list ascii)) :
  Py.chars <$> (Py.str <$> segs) = segs.
Proof.
  induction segs as [|seg segs IH]; [done|].
  by rewrite !fmap_cons, chars_str, IH.
Qed.

(** X4: [x.split('/')] undoes ['/'.join]: joining the segments gives the
    string back, no segment holds a ['/'], and there is one segment more
    than the string has ['/'].  Hence [x.split('/')[1]] raises [IndexError]
    exactly for the strings without ['/']. *)
Theorem split_join_roundtrip (x : string) :
  Py.str (join_chars "/"%char (Py.chars <$> Py.split x "/"%char)) = x
  ∧ Forall (fun seg => "/"%char ∉ Py.chars seg) (Py.split x "/"%char)
  ∧ length (Py.split x "/"%char) = S (count_char "/"%char (Py.chars x))
  ∧ (second_segment x = inl IndexError ↔ "/"%char ∉ Py.chars x).
Proof.
  unfold Py.split. split; [|split; [|split]].
  - rewrite chars_str_fmap, join_split_chars. apply str_chars.
  - apply Forall_fmap. eapply Forall_impl; [apply split_chars_segments|].
    intros seg Hseg. simpl. by rewrite chars_str.
  - rewrite length_fmap. apply split_chars_length.
  - split; [|apply second_segment_no_slash].
    intros E Hin. apply second_segment_returns_iff in Hin as [seg Hseg]. congruence.
Qed.

(** ** What the listing reports *)

Lemma elem_of_ls_s3_files (keys : list string) (f key : string) :
  f <> "" ->
  key ∈ ls_s3_files keys (Some f) ↔
  key ∈ keys ∧ Py.endswith key "/" = false ∧ Py.startswith key f = true.
Proof.
  intros Hf. unfold ls_s3_files, truthy. rewrite decide_False by done.
  rewrite !list_elem_of_filter. tauto.
Qed.

Lemma startswith_has_char (key f : string) (c : ascii) :
  Py.startswith key f = true -> c ∈ Py.chars f -> c ∈ Py.chars key.
Proof.
  unfold Py.startswith. intros [rest E]%bool_decide_eq_true Hc.
  rewrite E. apply elem_of_app. by left.
Qed.

Lemma comprehension_elem_of {A B} (f : A -> exn + B) (xs : list A) (ys : list B) (y : B) :
  comprehension f xs = inr ys ->
  y ∈ ys ↔ ∃ x, x ∈ xs ∧ f x = inr y.
Proof.
  intros H%comprehension_returns. split.
  - intros [i Hi]%list_elem_of_lookup.
    destruct (Forall2_lookup_r _ _ _ _ _ H Hi) as (x & Hx & Hf).
    exists x. split; [|done]. apply list_elem_of_lookup. by exists i.
  - intros (x & [i Hi]%list_elem_of_lookup & Hf).
    destruct (Forall2_lookup_l _ _ _ _ _ H Hi) as (y' & Hy & Hf').
    assert (y' = y) as -> by congruence.
    apply list_elem_of_lookup. by exists i.
Qed.

Lemma has_slash_nonempty (f : string) : "/"%char ∈ Py.chars f -> f <> "".
Proof. intros H ->. by apply elem_of_nil in H. Qed.

(** The call with a folder argument that holds a ['/'], on a bucket that is
    not empty: it returns, and what it returns. *)
Lemma get_s3_file_names_of_folder (bucket : gmap string bytes) (f : string) :
  "/"%char ∈ Py.chars f -> bucket <> ∅ ->
  ∃ names,
    get_s3_file_names_of (list_objects bucket) (Some f) = inr names
    ∧ ∀ name, name ∈ names ↔
        ∃ key, key ∈ first_page bucket
               ∧ Py.endswith key "/" = false
               ∧ Py.startswith key f = true
               ∧ second_segment key = inr name.
Proof.
  intros Hf Hne. pose proof (has_slash_nonempty _ Hf) as Hf'.
  destruct (list_objects_page bucket Hne) as (objs & Hc & Hkeys).
  unfold get_s3_file_names_of, get_Contents. rewrite Hc, Hkeys.
  destruct (comprehension_total second_segment
              (ls_s3_files (first_page bucket) (Some f))) as [names E].
  { intros key (_ & _ & Hs)%elem_of_ls_s3_files; [|done].
    apply second_segment_returns_iff. by eapply startswith_has_char. }
  exists names. split; [done|]. intros name.
  rewrite (comprehension_elem_of _ _ _ _ E). split.
  - intros (key & (Hk & He & Hs)%elem_of_ls_s3_files & Hseg); [|done].
    by exists key.
  - intros (key & Hk & He & Hs & Hseg). exists key. split; [|done].
    by apply elem_of_ls_s3_files.
Qed.

(** X5: called with a folder argument that contains a ['/'] - as both
    stages do - [get_s3_file_names] cannot raise [IndexError]: on a bucket
    with at least one object it returns and leaves the state as it was.
    The names it returns are the second segments of those keys of the first
    page of the listing that start with the folder argument and do not end
    in ['/'].  The page holds at most [MaxKeys] keys, all of them keys of
    the bucket, and it holds every key of the bucket when the bucket has at
    most [MaxKeys] objects. *)
Theorem get_s3_file_names_total_under_folder (w : world) (in_folder : string) :
  "/"%char ∈ Py.chars in_folder -> s3 w <> ∅ ->
  ∃ names,
    get_s3_file_names (Some in_folder) w = (w, inr names)
    ∧ (∀ name, name ∈ names ↔
         ∃ key, key ∈ first_page (s3 w)
                ∧ Py.endswith key "/" = false
                ∧ Py.startswith key in_folder = true
                ∧ Py.split key "/"%char !! 1%nat = Some name)
    ∧ (length (first_page (s3 w)) <= MaxKeys)%nat
    ∧ (∀ key, key ∈ first_page (s3 w) -> is_Some (s3 w !! key))
    ∧ ((size (s3 w) <= MaxKeys)%nat ->
       ∀ key, is_Some (s3 w !! key) -> key ∈ first_page (s3 w)).
Proof.
  intros Hf Hne.
  destruct (get_s3_file_names_of_folder (s3 w) in_folder Hf Hne) as (names & E & Hn).
  exists names. unfold get_s3_file_names, bind, get_world, lift. rewrite E.
  split; [done|]. split; [|split; [|split]].
  - intros name. rewrite Hn.
    split; intros (key & ? & ? & ? & Hseg); exists key; repeat (split; [done|]);
      by apply second_segment_inr.
  - unfold first_page. rewrite length_take. lia.
  - apply elem_of_first_page.
  - intros Hsize key. by apply elem_of_first_page_small.
Qed.

Lemma get_s3_file_names_total_under_folder_witness :
  ∃ names, get_s3_file_names (Some s3_folder_zip) scenario_XY
           = (scenario_XY, inr names).
Proof.
  destruct (get_s3_file_names_total_under_folder scenario_XY s3_folder_zip)
    as (names & E & _).
  - decide_by_compute.
  - decide_by_compute.
  - by exists names.
Defined.

Lemma listed_name (bucket : gmap string bytes) (d name : string)
    (names : list string) :
  (size bucket <= MaxKeys)%nat ->
  "/"%char ∉ Py.chars d -> "/"%char ∉ Py.chars name -> name <> "" ->
  is_Some (bucket !! ((d +:+ "/") +:+ name)) ->
  get_s3_file_names_of (list_objects bucket) (Some (d +:+ "/")) = inr names ->
  name ∈ names.
Proof.
  intros Hsize Hd Hn Hne Hk E.
  assert ("/"%char ∈ Py.chars (d +:+ "/")) as Hf.
  { rewrite chars_app. apply elem_of_app. right. left. }
  assert (bucket <> ∅) as Hb.
  { intros ->. destruct Hk as [v Hv]. by rewrite lookup_empty in Hv. }
  destruct (get_s3_file_names_of_folder bucket _ Hf Hb) as (names' & E' & Hin).
  assert (names' = names) as -> by congruence.
  apply Hin. exists ((d +:+ "/") +:+ name).
  split; [by apply elem_of_first_page_small|].
  split; [by apply not_endswith_slash|]. split; [apply startswith_app|].
  rewrite append_assoc.
  destruct (second_segment_folder d name Hd) as (seg & Hseg & _ & Hiff).
  rewrite Hseg. f_equal. by apply Hiff.
Qed.

(** X6: in a bucket of at most [MaxKeys] objects - one that the single
    page of the listing covers - an object stored directly under the
    folder, at the key [in_folder + name] with [in_folder] of the form [d/]
    and a name that is not empty and has no ['/'], is reported by
    [get_s3_file_names] under exactly that name. *)
Theorem staged_object_is_listed (w : world) (d name : string) :
  (size (s3 w) <= MaxKeys)%nat ->
  "/"%char ∉ Py.chars d -> "/"%char ∉ Py.chars name -> name <> "" ->
  is_Some (s3 w !! ((d +:+ "/") +:+ name)) ->
  ∃ names,
    get_s3_file_names (Some (d +:+ "/")) w = (w, inr names) ∧ name ∈ names.
Proof.
  intros Hsize Hd Hn Hne Hk.
  assert ("/"%char ∈ Py.chars (d +:+ "/")) as Hf.
  { rewrite chars_app. apply elem_of_app. right. left. }
  assert (s3 w <> ∅) as Hb.
  { intros E. destruct Hk as [v Hv]. by rewrite E, lookup_empty in Hv. }
  destruct (get_s3_file_names_of_folder (s3 w) _ Hf Hb) as (names & E & _).
  exists names. unfold get_s3_file_names, bind, get_world, lift. rewrite E.
  split; [done|]. exact (listed_name (s3 w) d name names Hsize Hd Hn Hne Hk E).
Qed.

Lemma staged_object_is_listed_witness :
  ∃ names,
    get_s3_file_names (Some ("zip_daily_files" +:+ "/")) scenario_XY
    = (scenario_XY, inr names)
    ∧ "L2_20200102.zip" ∈ names.
Proof.
  apply (staged_object_is_listed scenario_XY "zip_daily_files" "L2_20200102.zip");
    decide_by_compute.
Defined.

(** ** The order of the listing *)

Lemma comprehension_cons_inr {A B} (f : A -> exn + B) (x : A) (xs : list A)
    (r : list B) :
  comprehension f (x :: xs) = inr r ↔
  ∃ y ys, f x = inr y ∧ comprehension f xs = inr ys ∧ r = y :: ys.
Proof.
  simpl. destruct (f x) as [e|y]; [split; [done | by intros (? & ? & ? & _)]|].
  destruct (comprehension f xs) as [e|ys].
  - split; [done | by intros (? & ? & _ & ? & _)].
  - split.
    + intros [= <-]. by exists y, ys.
    + intros (y' & ys' & [= <-] & [= <-] & ->). done.
Qed.

Lemma comprehension_Permutation {A B} (f : A -> exn + B) (xs ys : list A) :
  xs ≡ₚ ys ->
  ∀ r, comprehension f xs = inr r ->
       ∃ r', comprehension f ys = inr r' ∧ r ≡ₚ r'.
Proof.
  induction 1 as [|x xs ys _ IH|x y xs|xs ys zs _ IH1 _ IH2]; intros r Hr.
  - by exists r.
  - apply comprehension_cons_inr in Hr as (b & bs & Hx & Hxs & ->).
    destruct (IH _ Hxs) as (bs' & E & Hp).
    exists (b :: bs'). split; [|by constructor].
    apply comprehension_cons_inr. by exists b, bs'.
  - apply comprehension_cons_inr in Hr as (b & bs & Hy & Hr & ->).
    apply comprehension_cons_inr in Hr as (a & r0 & Hx & Hr & ->).
    exists (a :: b :: r0). split; [|apply perm_swap].
    apply comprehension_cons_inr. exists a, (b :: r0). split; [done|].
    split; [|done]. apply comprehension_cons_inr. by exists b, r0.
  - destruct (IH1 _ Hr) as (r1 & E1 & Hp1).
    destruct (IH2 _ E1) as (r2 & E2 & Hp2).
    exists r2. split; [done|]. by etrans.
Qed.

Lemma ls_s3_files_Permutation (keys keys' : list string) (f : option string) :
  keys ≡ₚ keys' -> ls_s3_files keys f ≡ₚ ls_s3_files keys' f.
Proof.
  intros H. unfold ls_s3_files. destruct (truthy f); by rewrite H.
Qed.

(** X7: the outcome of [get_s3_file_names] does not depend on the order in
    which the listing enumerates the keys: two listings with the same keys
    raise the same exception or return the same names up to order, hence
    the same set of names for the comparison that follows. *)
Theorem listing_order_is_irrelevant (objs objs' : list s3_object)
    (in_folder : option string) :
  Key <$> objs ≡ₚ Key <$> objs' ->
  (∀ e, get_s3_file_names_of (Response (Some objs)) in_folder = inl e ->
        get_s3_file_names_of (Response (Some objs')) in_folder = inl e)
  ∧ (∀ names,
       get_s3_file_names_of (Response (Some objs)) in_folder = inr names ->
       ∃ names',
         get_s3_file_names_of (Response (Some objs')) in_folder = inr names'
         ∧ names ≡ₚ names'
         ∧ (list_to_set names : gset string) = list_to_set names').
Proof.
  intros Hp. apply (ls_s3_files_Permutation _ _ in_folder) in Hp.
  unfold get_s3_file_names_of, get_Contents. simpl. split.
  - intros e (key & Hin & Hkey)%comprehension_raises.
    pose proof (second_segment_raises _ _ Hkey) as ->.
    apply comprehension_stops with key; [by rewrite <- Hp | done |].
    apply second_segment_raises.
  - intros names E.
    destruct (comprehension_Permutation _ _ _ Hp _ E) as (names' & E' & Hn).
    exists names'. split; [done|]. split; [done|]. by rewrite Hn.
Qed.

Lemma listing_order_is_irrelevant_witness :
  ∃ names',
    get_s3_file_names_of
      (Response (Some [S3Object "zip_daily_files/L2_20200102.zip" 1;
                       S3Object "zip_daily_files/L2_20200101.zip" 1]))
      (Some s3_folder_zip) = inr names'
    ∧ ["L2_20200101.zip"; "L2_20200102.zip"] ≡ₚ names'.
Proof.
  destruct (listing_order_is_irrelevant
              [S3Object "zip_daily_files/L2_20200101.zip" 1;
               S3Object "zip_daily_files/L2_20200102.zip" 1]
              [S3Object "zip_daily_files/L2_20200102.zip" 1;
               S3Object "zip_daily_files/L2_20200101.zip" 1]
              (Some s3_folder_zip)) as [_ H].
  - simpl. apply perm_swap.
  - destruct (H ["L2_20200101.zip"; "L2_20200102.zip"]) as (names' & E & Hp & _).
    + reflexivity.
    + by exists names'.
Defined.

(** ** The download loop, continued *)

Lemma transfer_returns (fl : faults) (in_folder f : string) (w w' : world) :
  transfer fl in_folder f w = (w', inr tt) ->
  ∃ data,
    ftp_files w !! f = Some data
    ∧ transfers_ok fl in_folder w f
    ∧ w' = World (ftp_dir w) (ftp_files w)
             (<[in_folder +:+ f := data]> (s3 w))
             (delete f (<[f := data]> (<[f := []]> (local w))))
             (((log w ++ [EvRetr f]) ++ [EvUpload (in_folder +:+ f)])
                ++ [EvRemove f]).
Proof.
  rewrite transfer_eq. cbv zeta. unfold transfers_ok.
  destruct (ftp_files w !! f) as [data|]; [|done].
  destruct (retr_fails fl f); [done|].
  destruct (upload_fails fl (in_folder +:+ f)); [done|].
  destruct (remove_fails fl f); [done|].
  intros [= <-]. exists data. split; [done|]. split; [|done].
  split; [by eexists | done].
Qed.

Lemma transfer_succeeds (fl : faults) (in_folder f : string) (w : world) :
  transfers_ok fl in_folder w f ->
  ∃ w', transfer fl in_folder f w = (w', inr tt).
Proof.
  intros ([data Hd] & Hr & Hu & Hx). rewrite transfer_eq. cbv zeta.
  rewrite Hd, Hr, Hu, Hx. by eexists.
Qed.

Lemma transfer_loop_returns_iff (fl : faults) (in_folder : string)
    (queue : list string) (w : world) :
  (∃ w1, transfer_loop fl in_folder queue w = (w1, inr tt))
  ↔ Forall (transfers_ok fl in_folder w) queue.
Proof.
  unfold transfer_loop. revert w.
  induction queue as [|y queue IH]; intros w; simpl.
  - split; [constructor | by eexists].
  - unfold bind. split.
    + intros [w1 H].
      destruct (transfer fl in_folder y w) as [wy [e|[]]] eqn:Hy; [done|].
      apply transfer_returns in Hy as (data & _ & Hok & ->).
      constructor; [done|].
      assert (∃ w1', for_each (transfer fl in_folder) queue
                (World (ftp_dir w) (ftp_files w)
                   (<[in_folder +:+ y := data]> (s3 w))
                   (delete y (<[y := data]> (<[y := []]> (local w))))
                   (((log w ++ [EvRetr y]) ++ [EvUpload (in_folder +:+ y)])
                      ++ [EvRemove y])) = (w1', inr tt)) as Hex by by eexists.
      apply IH in Hex. eapply Forall_impl; [exact Hex|]. by intros x.
    + intros [Hy Hq]%Forall_cons.
      destruct (transfer_succeeds _ _ _ _ Hy) as [wy Hwy]. rewrite Hwy.
      apply IH. apply transfer_returns in Hwy as (data & _ & _ & ->).
      eapply Forall_impl; [exact Hq|]. by intros x.
Qed.

Lemma transfer_loop_local (fl : faults) (in_folder : string)
    (queue : list string) (w w1 : world) :
  transfer_loop fl in_folder queue w = (w1, inr tt) ->
  ftp_dir w1 = ftp_dir w
  ∧ (∀ x, x ∈ queue -> local w1 !! x = None)
  ∧ (∀ x, x ∉ queue -> local w1 !! x = local w !! x).
Proof.
  unfold transfer_loop. revert w.
  induction queue as [|y queue IH]; intros w; simpl.
  - intros [= <-]. split; [done|]. split; [|done].
    intros x Hx. by apply elem_of_nil in Hx.
  - unfold bind.
    destruct (transfer fl in_folder y w) as [wy [e|[]]] eqn:Hy; [done|].
    apply transfer_returns in Hy as (data & _ & _ & ->).
    intros H. apply IH in H as (Hdir & Hin & Hout). simpl in *.
    split; [done|]. split.
    + intros x Hx. destruct (decide (x ∈ queue)) as [Hq|Hq]; [by apply Hin|].
      apply elem_of_cons in Hx as [->|?]; [|done].
      rewrite (Hout _ Hq). apply lookup_delete_eq.
    + intros x Hx. apply not_elem_of_cons in Hx as [Hne Hq].
      rewrite (Hout _ Hq). rewrite lookup_delete_ne by done.
      by rewrite !lookup_insert_ne by done.
Qed.

(** X8: the download loop returns exactly when every file of the queue is
    on the FTP site and none of its three calls fails.  It has then staged
    each file under [in_folder + name] with the bytes served by the FTP
    site, has changed no other key of the bucket, has removed the local
    copy of every file of the queue (also one that existed before the run),
    has left all other local files alone, and has made the calls retrieve,
    upload, remove for each file in queue order. *)
Theorem transfer_loop_complete (fl : faults) (in_folder : string)
    (queue : list string) (w : world) :
  ((∃ w1, transfer_loop fl in_folder queue w = (w1, inr tt))
   ↔ Forall (transfers_ok fl in_folder w) queue)
  ∧ ∀ w1,
      transfer_loop fl in_folder queue w = (w1, inr tt) ->
      (∀ x, x ∈ queue ->
         is_Some (ftp_files w !! x)
         ∧ s3 w1 !! (in_folder +:+ x) = ftp_files w !! x)
      ∧ (∀ k, (∀ x, x ∈ queue -> k <> in_folder +:+ x) ->
           s3 w1 !! k = s3 w !! k)
      ∧ (∀ x, x ∈ queue -> local w1 !! x = None)
      ∧ (∀ x, x ∉ queue -> local w1 !! x = local w !! x)
      ∧ log w1 = log w ++
          flat_map (fun x => [EvRetr x; EvUpload (in_folder +:+ x); EvRemove x])
            queue.
Proof.
  split; [apply transfer_loop_returns_iff|].
  intros w1 H.
  destruct (transfer_loop_returns _ _ _ _ _ H) as (_ & Hin & Hout & Hlog).
  destruct (transfer_loop_local _ _ _ _ _ H) as (_ & Hl1 & Hl2).
  done.
Qed.

(** ** What a run never does *)

Lemma grows_refl (w : world) : grows w w.
Proof. by repeat split. Qed.

Lemma grows_trans (w1 w2 w3 : world) : grows w1 w2 -> grows w2 w3 -> grows w1 w3.
Proof.
  intros (Ha & Hb & Hc & Hd) (Ha' & Hb' & Hc' & Hd').
  split; [congruence|]. split; [congruence|].
  split; [set_solver | by etrans].
Qed.

Lemma bind_grows {A B} (m : M A) (k : A -> M B) (w : world) :
  grows w (m w).1 -> (∀ a w', grows w' (k a w').1) -> grows w (bind m k w).1.
Proof.
  intros Hm Hk. unfold bind. destruct (m w) as [w' [e|a]]; [done|].
  eapply grows_trans; [exact Hm | apply Hk].
Qed.

Lemma for_each_grows {A} (body : A -> M unit) (xs : list A) :
  (∀ x w, grows w (body x w).1) -> ∀ w, grows w (for_each body xs w).1.
Proof.
  intros Hb. induction xs as [|x xs IH]; intros w; simpl; [apply grows_refl|].
  apply bind_grows; [apply Hb | intros _; apply IH].
Qed.

Lemma transfer_grows (fl : faults) (in_folder f : string) (w : world) :
  grows w (transfer fl in_folder f w).1.
Proof.
  rewrite transfer_eq. cbv zeta. unfold grows.
  destruct (ftp_files w !! f) as [data|];
    [destruct (retr_fails fl f);
       [|destruct (upload_fails fl (in_folder +:+ f));
           [|destruct (remove_fails fl f)]]|];
    simpl; (split; [done|]); (split; [done|]);
    (split; [try done; apply dom_insert_subseteq|]);
    rewrite <- ?app_assoc; by apply prefix_app_r.
Qed.

Lemma get_s3_file_names_same (in_folder : option string) (w : world) :
  (get_s3_file_names in_folder w).1 = w.
Proof. reflexivity. Qed.

Lemma get_ftp_to_s3_grows (fl : faults) (list_of_set : gset string -> list string)
    (in_folder : string) (w : world) :
  grows w (get_ftp_to_s3 fl list_of_set in_folder w).1.
Proof.
  unfold get_ftp_to_s3. apply bind_grows; [apply grows_refl|]. intros w0 w1.
  apply bind_grows; [apply grows_refl|]. intros names w2.
  destruct (decide _); [|apply grows_refl].
  apply for_each_grows. intros; apply transfer_grows.
Qed.

Lemma upload_fileobj_grows (fl : faults) (data : bytes) (key : string) (w : world) :
  grows w (upload_fileobj fl data key w).1.
Proof.
  unfold upload_fileobj, bind, emit, raise, set_s3. simpl.
  destruct (upload_fails fl key); simpl; unfold grows; simpl;
    (split; [done|]); (split; [done|]);
    (split; [try done; apply dom_insert_subseteq | by apply prefix_app_r]).
Qed.

Lemma expand_grows (fl : faults) (ZipFile : bytes -> option zip_archive)
    (in_zipfolder in_unzipfolder each_zipfile : string) (w : world) :
  grows w (expand fl ZipFile in_zipfolder in_unzipfolder each_zipfile w).1.
Proof.
  unfold expand. apply bind_grows.
  { unfold s3_get, bind, get_world. destruct (s3 w !! _); apply grows_refl. }
  intros buffer w'. destruct (ZipFile buffer) as [z|].
  - unfold publish. apply for_each_grows. intros name w''.
    apply bind_grows; [unfold lift; apply grows_refl|].
    intros; apply upload_fileobj_grows.
  - destruct (damaged fl buffer) as [[readable e]|]; [|apply grows_refl].
    unfold publish_damaged. apply bind_grows; [|intros; apply grows_refl].
    apply for_each_grows. intros; apply upload_fileobj_grows.
Qed.

Lemma unzip_s3_files_grows (fl : faults) (list_of_set : gset string -> list string)
    (ZipFile : bytes -> option zip_archive)
    (in_zipfolder in_unzipfolder : string) (w : world) :
  grows w (unzip_s3_files fl list_of_set ZipFile in_zipfolder in_unzipfolder w).1.
Proof.
  unfold unzip_s3_files. apply bind_grows; [apply grows_refl|]. intros zs w1.
  apply bind_grows; [apply grows_refl|]. intros us w2.
  apply for_each_grows. intros; apply expand_grows.
Qed.

(** The second stage never touches the local directory. *)
Lemma bind_local {A B} (m : M A) (k : A -> M B) (w : world) :
  local (m w).1 = local w -> (∀ a w', local (k a w').1 = local w') ->
  local (bind m k w).1 = local w.
Proof.
  intros Hm Hk. unfold bind. destruct (m w) as [w' [e|a]]; [done|].
  simpl in Hm. by rewrite Hk.
Qed.

Lemma for_each_local {A} (body : A -> M unit) (xs : list A) :
  (∀ x w, local (body x w).1 = local w) ->
  ∀ w, local (for_each body xs w).1 = local w.
Proof.
  intros Hb. induction xs as [|x xs IH]; intros w; simpl; [done|].
  apply bind_local; [apply Hb | intros _; apply IH].
Qed.

Lemma unzip_s3_files_local (fl : faults) (list_of_set : gset string -> list string)
    (ZipFile : bytes -> option zip_archive)
    (in_zipfolder in_unzipfolder : string) (w : world) :
  local (unzip_s3_files fl list_of_set ZipFile in_zipfolder in_unzipfolder w).1
  = local w.
Proof.
  unfold unzip_s3_files. apply bind_local; [done|]. intros zs w1.
  apply bind_local; [done|]. intros us w2.
  apply for_each_local. intros x w3. unfold expand. apply bind_local.
  { unfold s3_get, bind, get_world. by destruct (s3 w3 !! _). }
  assert (∀ data key w', local (upload_fileobj fl data key w').1 = local w')
    as Hup.
  { intros data key w'. unfold upload_fileobj, bind, emit, raise, set_s3. simpl.
    by destruct (upload_fails fl _). }
  intros buffer w4. destruct (ZipFile buffer) as [z|].
  - unfold publish. apply for_each_local. intros name w5.
    apply bind_local; [done|]. intros data w6. apply Hup.
  - destruct (damaged fl buffer) as [[readable e]|]; [|done].
    unfold publish_damaged. apply bind_local; [|done].
    apply for_each_local. intros; apply Hup.
Qed.

(** X9: whatever the environment does and however a run ends - normally
    or with an exception at any point - the script only adds: the FTP
    listing and the FTP files are as before, every key of the bucket is
    still there, and the calls made so far are still at the head of the
    log.  This holds for each stage and for both in sequence; the second
    stage moreover leaves the local directory as it was. *)
Theorem run_only_adds (fl : faults) (list_of_set : gset string -> list string)
    (ZipFile : bytes -> option zip_archive)
    (in_zipfolder in_unzipfolder : string) (w : world) :
  grows w (get_ftp_to_s3 fl list_of_set in_zipfolder w).1
  ∧ grows w (unzip_s3_files fl list_of_set ZipFile
               in_zipfolder in_unzipfolder w).1
  ∧ grows w (run_stages fl list_of_set ZipFile in_zipfolder in_unzipfolder w).1
  ∧ local (unzip_s3_files fl list_of_set ZipFile
             in_zipfolder in_unzipfolder w).1 = local w.
Proof.
  split; [apply get_ftp_to_s3_grows|].
  split; [apply unzip_s3_files_grows|].
  split; [|apply unzip_s3_files_local].
  unfold run_stages. apply bind_grows; [apply get_ftp_to_s3_grows|].
  intros; apply unzip_s3_files_grows.
Qed.

(** X10: a transfer that fails leaves its local file behind; [os.remove]
    is not reached.  After a failed retrieval the file created by
    [open(each_file, 'wb')] is there, in place of any earlier file of that
    name, and holds the bytes received before the failure: an initial part
    of the FTP file, and nothing at all when the site does not have the
    file.  After a failed upload the complete download is there. *)
Theorem failed_transfer_leaves_local_file (fl : faults) (in_folder : string)
    (f : string) (post : list string) (w : world) :
  retr_fails fl f = true ∨ ftp_files w !! f = None
    ∨ upload_fails fl (in_folder +:+ f) = true ->
  let w2 := (transfer_loop fl in_folder (f :: post) w).1 in
  is_Some (local w2 !! f)
  ∧ (ftp_files w !! f = None -> local w2 !! f = Some [])
  ∧ (∀ data, ftp_files w !! f = Some data -> retr_fails fl f = true ->
       local w2 !! f = Some (take (retr_received fl f) data)
       ∧ take (retr_received fl f) data `prefix_of` data)
  ∧ (∀ data, retr_fails fl f = false -> ftp_files w !! f = Some data ->
       local w2 !! f = Some data)
  ∧ EvRemove f ∉ drop (length (log w)) (log w2).
Proof.
  intros Hfail. cbv zeta. unfold transfer_loop. simpl. unfold bind.
  rewrite transfer_eq. cbv zeta.
  destruct (ftp_files w !! f) as [data|] eqn:Hf.
  - destruct (retr_fails fl f) eqn:Hr; simpl.
    { rewrite ?lookup_insert_eq, drop_app_length.
      split; [by eexists|]. split; [done|]. split.
      - intros data' [= <-] _. rewrite ?lookup_insert_eq.
        split; [done|]. apply prefix_take.
      - split; [done|]. by intros [=]%list_elem_of_singleton. }
    destruct (upload_fails fl (in_folder +:+ f)) eqn:Hu; simpl.
    { rewrite ?lookup_insert_eq, <- app_assoc, drop_app_length.
      split; [by eexists|]. split; [done|]. split; [done|].
      split; [intros data' _ [= ->]; by rewrite ?lookup_insert_eq|].
      intros [[=]|[[=]|[]%elem_of_nil]%elem_of_cons]%elem_of_cons. }
    destruct Hfail as [?|[?|?]]; congruence.
  - simpl. rewrite ?lookup_insert_eq, drop_app_length.
    split; [by eexists|]. split; [intros _; by rewrite ?lookup_insert_eq|].
    split; [done|]. split; [done|].
    by intros [=]%list_elem_of_singleton.
Qed.

Lemma failed_transfer_leaves_local_file_witness :
  local (transfer_loop (partial_retr_fault "L2_20200103.zip" 2)
           "zip_daily_files/" ["L2_20200103.zip"; "L2_20200102.zip"]
           scenario_partial).1 !! "L2_20200103.zip" = Some [x0a; x0b].
Proof.
  destruct (failed_transfer_leaves_local_file
              (partial_retr_fault "L2_20200103.zip" 2)
              "zip_daily_files/" "L2_20200103.zip" ["L2_20200102.zip"]
              scenario_partial) as (_ & _ & H & _).
  - left. reflexivity.
  - destruct (H [x0a; x0b; x0c]) as [H' _]; [reflexivity..|]. exact H'.
Defined.

(** X11: with no object at all in the bucket neither stage can start: the
    listing at the top of [get_ftp_to_s3] and of [unzip_s3_files] raises
    [KeyError], so that a run on a fresh bucket ends with this exception
    before any file is retrieved or uploaded, whatever the FTP site
    offers. *)
Theorem empty_bucket_stops_the_run (fl : faults)
    (list_of_set : gset string -> list string)
    (ZipFile : bytes -> option zip_archive)
    (in_zipfolder in_unzipfolder : string) (w : world) :
  s3 w = ∅ ->
  get_ftp_to_s3 fl list_of_set in_zipfolder w = (w, inl (KeyError "Contents"))
  ∧ unzip_s3_files fl list_of_set ZipFile in_zipfolder in_unzipfolder w
    = (w, inl (KeyError "Contents"))
  ∧ run_stages fl list_of_set ZipFile in_zipfolder in_unzipfolder w
    = (w, inl (KeyError "Contents")).
Proof.
  intros He.
  assert (∀ f, get_s3_file_names f w = (w, inl (KeyError "Contents"))) as Hl.
  { intros f. unfold get_s3_file_names, bind, get_world, lift.
    unfold get_s3_file_names_of, get_Contents.
    by rewrite (proj2 (list_objects_Contents (s3 w)) He). }
  assert (get_ftp_to_s3 fl list_of_set in_zipfolder w
          = (w, inl (KeyError "Contents"))) as H1.
  { unfold get_ftp_to_s3, bind at 1, get_world. unfold bind. by rewrite Hl. }
  split; [done|]. split.
  - unfold unzip_s3_files, bind. by rewrite Hl.
  - unfold run_stages, bind. by rewrite H1.
Qed.

Lemma empty_bucket_stops_the_run_witness :
  run_stages no_faults sorted_list ZipFile_ex s3_folder_zip s3_folder_unzip
    (World ["L2_20200101.zip"] (<["L2_20200101.zip" := [x01]]> ∅) ∅ ∅ [])
  = (World ["L2_20200101.zip"] (<["L2_20200101.zip" := [x01]]> ∅) ∅ ∅ [],
     inl (KeyError "Contents")).
Proof.
  apply (empty_bucket_stops_the_run no_faults sorted_list ZipFile_ex
           s3_folder_zip s3_folder_unzip
           (World ["L2_20200101.zip"] (<["L2_20200101.zip" := [x01]]> ∅) ∅ ∅ [])).
  reflexivity.
Defined.

(** ** The first stage as a whole *)

Lemma get_ftp_to_s3_loop (fl : faults) (list_of_set : gset string -> list string)
    (in_folder : string) (w : world) (staged : list string) :
  get_s3_file_names_of (list_objects (s3 w)) (Some in_folder) = inr staged ->
  get_ftp_to_s3 fl list_of_set in_folder w
  = transfer_loop fl in_folder
      (list_of_set (missing (classifyDaily (ftp_dir w)) staged)) w.
Proof.
  intros Hs. rewrite (get_ftp_to_s3_eq _ _ _ _ _ Hs). cbv zeta.
  destruct (decide _) as [|Hn]; [done|].
  destruct (list_of_set _) as [|x q]; [done|]. simpl in Hn. lia.
Qed.

Lemma get_ftp_to_s3_returns_listing (fl : faults)
    (list_of_set : gset string -> list string)
    (in_folder : string) (w w1 : world) :
  get_ftp_to_s3 fl list_of_set in_folder w = (w1, inr tt) ->
  ∃ staged,
    get_s3_file_names_of (list_objects (s3 w)) (Some in_folder) = inr staged.
Proof.
  unfold get_ftp_to_s3, get_s3_file_names, bind, get_world, lift.
  destruct (get_s3_file_names_of _ _) as [e|staged]; [done|]. by eexists.
Qed.

(** X12: when the listing of the staged names returns and the environment
    lets every missing daily file through, [get_ftp_to_s3] returns and has
    staged exactly the daily files that were not staged: each of them is in
    the bucket under [in_folder + name] with the bytes of the FTP file, no
    other key has changed, no local copy of them is left, and three calls
    per missing file - and no others - have been made. *)
Theorem get_ftp_to_s3_stages_missing (fl : faults)
    (list_of_set : gset string -> list string)
    (in_folder : string) (w : world) (staged : list string) :
  (∀ s, list_of_set s ≡ₚ elements s) ->
  get_s3_file_names_of (list_objects (s3 w)) (Some in_folder) = inr staged ->
  (∀ x, x ∈ classifyDaily (ftp_dir w) -> x ∉ staged ->
        transfers_ok fl in_folder w x) ->
  ∃ w1,
    get_ftp_to_s3 fl list_of_set in_folder w = (w1, inr tt)
    ∧ (∀ x, x ∈ classifyDaily (ftp_dir w) -> x ∉ staged ->
         is_Some (ftp_files w !! x)
         ∧ s3 w1 !! (in_folder +:+ x) = ftp_files w !! x
         ∧ local w1 !! x = None)
    ∧ (∀ k, (∀ x, x ∈ classifyDaily (ftp_dir w) -> x ∉ staged ->
                  k <> in_folder +:+ x) ->
         s3 w1 !! k = s3 w !! k)
    ∧ length (log w1)
      = (length (log w) + 3 * size (missing (classifyDaily (ftp_dir w)) staged))%nat
    ∧ (∀ x, EvRetr x ∈ log w1 ->
         EvRetr x ∈ log w ∨ (x ∈ classifyDaily (ftp_dir w) ∧ x ∉ staged)).
Proof.
  intros Hlos Hs Hok.
  rewrite (get_ftp_to_s3_loop _ _ _ _ _ Hs).
  set (queue := list_of_set (missing (classifyDaily (ftp_dir w)) staged)).
  assert (∀ x, x ∈ queue ↔ x ∈ classifyDaily (ftp_dir w) ∧ x ∉ staged) as Hq.
  { intros x. unfold queue.
    by rewrite (elem_of_list_of_set _ Hlos), elem_of_missing. }
  destruct (proj2 (transfer_loop_returns_iff fl in_folder queue w)) as [w1 Hrun].
  { apply Forall_forall. intros x [? ?]%Hq. by apply Hok. }
  exists w1. split; [done|].
  destruct (transfer_loop_returns _ _ _ _ _ Hrun) as (_ & Hin & Hout & Hlog).
  destruct (transfer_loop_local _ _ _ _ _ Hrun) as (_ & Hl1 & _).
  split; [|split; [|split]].
  - intros x Hd Hn. assert (x ∈ queue) as Hx by by apply Hq.
    destruct (Hin x Hx). auto.
  - intros k Hk. apply Hout. intros x [? ?]%Hq. by apply Hk.
  - rewrite Hlog, length_app. f_equal.
    assert (length queue = size (missing (classifyDaily (ftp_dir w)) staged)) as <-.
    { unfold queue. by rewrite Hlos. }
    clear. induction queue as [|x q IH]; simpl; lia.
  - intros x. rewrite Hlog, elem_of_app. intros [?|Hx]; [by left|]. right.
    apply Hq. clear -Hx. induction queue as [|y q IH]; simpl in Hx.
    + by apply elem_of_nil in Hx.
    + apply elem_of_cons in Hx as [[= ->]|Hx]; [left|].
      apply elem_of_cons in Hx as [[=]|Hx].
      apply elem_of_cons in Hx as [[=]|Hx]. right. by apply IH.
Qed.

Lemma get_ftp_to_s3_stages_missing_witness :
  ∃ w1,
    get_ftp_to_s3 no_faults sorted_list s3_folder_zip scenario_A = (w1, inr tt)
    ∧ s3 w1 !! "zip_daily_files/L2_20200101.zip" = Some [x01]
    ∧ s3 w1 !! "zip_daily_files/L2_20200102.zip" = Some [x02]
    ∧ length (log w1) = 6%nat.
Proof.
  destruct (get_ftp_to_s3_stages_missing no_faults sorted_list s3_folder_zip
              scenario_A ["L2_20191231.zip"])
    as (w1 & Hrun & Hin & _ & Hlen & _).
  - apply sorted_list_perm.
  - reflexivity.
  - intros x Hx _.
    assert (x ∈ ["L2_20200101.zip"; "L2_20200102.zip"]) as Hx' by exact Hx.
    unfold transfers_ok. simpl.
    apply elem_of_cons in Hx' as [->|Hx'];
      [|apply list_elem_of_singleton in Hx' as ->];
      (split; [by eexists | done]).
  - exists w1. split; [exact Hrun|].
    split; [|split].
    + destruct (Hin "L2_20200101.zip") as (_ & H & _);
        [decide_by_compute..|exact H].
    + destruct (Hin "L2_20200102.zip") as (_ & H & _);
        [decide_by_compute..|exact H].
    + rewrite Hlen. reflexivity.
Defined.

Lemma daily_name_nonempty (names : list string) (x : string) :
  x ∈ classifyDaily names -> x <> "".
Proof.
  intros (_ & Hz & _)%elem_of_classifyDaily ->. by vm_compute in Hz.
Qed.

Lemma nonempty_bucket_grows (w w1 : world) :
  grows w w1 -> s3 w <> ∅ -> s3 w1 <> ∅.
Proof.
  intros (_ & _ & Hdom & _) Hne E. apply Hne. apply dom_empty_iff_L.
  rewrite E, dom_empty_L in Hdom. set_solver.
Qed.

(** X13: the first stage is idempotent as long as the bucket fits into the
    one page of the listing.  With a folder argument of the form [d/] and an
    FTP listing of plain names (none holds a ['/']), a run of
    [get_ftp_to_s3] that has returned and has left at most [MaxKeys] objects
    in the bucket leaves a state in which every daily file is listed as
    staged: run again, whatever the environment now does, it makes no call,
    changes nothing and returns. *)
Theorem get_ftp_to_s3_idempotent (fl fl' : faults)
    (list_of_set : gset string -> list string) (d : string) (w w1 : world) :
  (∀ s, list_of_set s ≡ₚ elements s) ->
  "/"%char ∉ Py.chars d ->
  Forall (fun x => "/"%char ∉ Py.chars x) (ftp_dir w) ->
  get_ftp_to_s3 fl list_of_set (d +:+ "/") w = (w1, inr tt) ->
  (size (s3 w1) <= MaxKeys)%nat ->
  get_ftp_to_s3 fl' list_of_set (d +:+ "/") w1 = (w1, inr tt).
Proof.
  intros Hlos Hd Hplain Hrun Hsize.
  destruct (get_ftp_to_s3_returns_listing _ _ _ _ _ Hrun) as [staged Hs].
  rewrite (get_ftp_to_s3_loop _ _ _ _ _ Hs) in Hrun.
  set (queue := list_of_set (missing (classifyDaily (ftp_dir w)) staged)) in *.
  assert ("/"%char ∈ Py.chars (d +:+ "/")) as Hf.
  { rewrite chars_app. apply elem_of_app. right. left. }
  assert (s3 w <> ∅) as Hne.
  { intros E. apply list_objects_Contents in E.
    unfold get_s3_file_names_of, get_Contents in Hs. by rewrite E in Hs. }
  assert (grows w w1) as Hg.
  { pose proof (for_each_grows (transfer fl (d +:+ "/")) queue
                  (transfer_grows fl (d +:+ "/")) w) as H.
    unfold transfer_loop in Hrun. by rewrite Hrun in H. }
  pose proof (nonempty_bucket_grows _ _ Hg Hne) as Hne1.
  destruct Hg as (Hdir & _ & Hdom & _).
  destruct (get_s3_file_names_of_folder (s3 w) _ Hf Hne) as (staged' & Hs' & Hin).
  assert (staged' = staged) as -> by congruence.
  destruct (get_s3_file_names_of_folder (s3 w1) _ Hf Hne1) as (staged1 & Hs1 & Hin1).
  destruct (transfer_loop_returns _ _ _ _ _ Hrun) as (_ & Hq & _ & _).
  apply (get_ftp_to_s3_nothing_missing _ Hlos fl' _ _ staged1 Hs1).
  rewrite Hdir. intros x Hx.
  destruct (decide (x ∈ staged)) as [Hst|Hst].
  - apply Hin in Hst as (key & Hk & He & Hsw & Hseg).
    apply Hin1. exists key. split; [|done].
    apply elem_of_first_page_small; [done|].
    apply elem_of_dom. apply Hdom. apply elem_of_dom.
    by apply elem_of_first_page.
  - assert (x ∈ queue) as Hxq.
    { unfold queue. rewrite (elem_of_list_of_set _ Hlos), elem_of_missing. done. }
    destruct (Hq x Hxq) as [Hsome Heq].
    apply (listed_name (s3 w1) d x staged1);
      [done|done| |by eapply daily_name_nonempty| |done].
    + apply elem_of_classifyDaily in Hx as (Hx & _).
      rewrite Forall_forall in Hplain. by apply Hplain.
    + by rewrite Heq.
Qed.

Lemma get_ftp_to_s3_idempotent_witness :
  let w1 := (get_ftp_to_s3 no_faults sorted_list ("zip_daily_files" +:+ "/")
               scenario_A).1 in
  get_ftp_to_s3 (retr_fault "L2_20200101.zip") sorted_list
    ("zip_daily_files" +:+ "/") w1 = (w1, inr tt).
Proof.
  cbv zeta.
  apply (get_ftp_to_s3_idempotent no_faults (retr_fault "L2_20200101.zip")
           sorted_list "zip_daily_files" scenario_A).
  - apply sorted_list_perm.
  - decide_by_compute.
  - decide_by_compute.
  - vm_compute. reflexivity.
  - decide_by_compute.
Defined.

(** ** The second stage, continued *)

Lemma conform_options_name (suffix ext : string) :
  String.length ext = 3%nat ->
  conform ("options_" +:+ suffix +:+ "." +:+ ext) = "L2_" +:+ suffix +:+ ".zip".
Proof.
  intros He.
  change ("options_" +:+ suffix +:+ "." +:+ ext)
    with ("options" +:+ "_" +:+ suffix +:+ "." +:+ ext).
  replace ("_" +:+ suffix +:+ "." +:+ ext)
    with (("_" +:+ suffix +:+ ".") +:+ ext).
  - rewrite conform_middle by done.
    change ("L2" +:+ ("_" +:+ suffix +:+ ".") +:+ "zip")
      with ("L2_" +:+ (suffix +:+ ".") +:+ "zip").
    by rewrite append_assoc.
  - change (("_" +:+ suffix +:+ ".") +:+ ext)
      with ("_" +:+ (suffix +:+ ".") +:+ ext).
    by rewrite append_assoc.
Qed.

Lemma options_name_plain (suffix ext : string) :
  "/"%char ∉ Py.chars suffix -> "/"%char ∉ Py.chars ext ->
  ("/"%char ∉ Py.chars ("options_" +:+ suffix +:+ "." +:+ ext))
  ∧ "options_" +:+ suffix +:+ "." +:+ ext <> "".
Proof.
  intros Hs He. split; [|done].
  rewrite !chars_app, !elem_of_app. intros [H|[H|[H|H]]]; [|done| |done].
  - revert H. decide_by_compute.
  - revert H. decide_by_compute.
Qed.

(** X14: one published member is enough to mark an archive as expanded.
    As soon as a bucket of at most [MaxKeys] objects - one that the single
    page of the listing covers - holds, directly under the publish folder
    [d/], an object named [options_<suffix>.<ext>] with a three-character
    extension, the archive name [L2_<suffix>.zip] is not pending any more,
    in no enumeration of the queue - whether or not the other members of
    that archive were ever published. *)
Theorem conforming_member_marks_expanded (w : world)
    (d suffix ext in_zipfolder : string) (zs us : list string) :
  (size (s3 w) <= MaxKeys)%nat ->
  "/"%char ∉ Py.chars d ->
  "/"%char ∉ Py.chars suffix ->
  "/"%char ∉ Py.chars ext ->
  String.length ext = 3%nat ->
  is_Some (s3 w !! ((d +:+ "/") +:+ ("options_" +:+ suffix +:+ "." +:+ ext))) ->
  get_s3_file_names_of (list_objects (s3 w)) (Some in_zipfolder) = inr zs ->
  get_s3_file_names_of (list_objects (s3 w)) (Some (d +:+ "/")) = inr us ->
  ("L2_" +:+ suffix +:+ ".zip" ∉ pendingExpansion zs us)
  ∧ ∀ list_of_set : gset string -> list string,
      (∀ s, list_of_set s ≡ₚ elements s) ->
      "L2_" +:+ suffix +:+ ".zip" ∉ list_of_set (pendingExpansion zs us).
Proof.
  intros Hsize Hd Hs He Hlen Hk Hzs Hus.
  destruct (options_name_plain suffix ext Hs He) as [Hplain Hne].
  pose proof (listed_name (s3 w) d _ us Hsize Hd Hplain Hne Hk Hus) as Hin.
  assert ("L2_" +:+ suffix +:+ ".zip" ∉ pendingExpansion zs us) as Hp.
  { rewrite elem_of_pendingExpansion. intros [_ Hn]. apply Hn.
    exists ("options_" +:+ suffix +:+ "." +:+ ext). split; [done|].
    split; [apply startswith_app | by apply conform_options_name]. }
  split; [done|]. intros los Hlos. by rewrite (elem_of_list_of_set _ Hlos).
Qed.

Lemma conforming_member_marks_expanded_witness :
  "L2_20200102.zip"
  ∉ pendingExpansion ["L2_20200101.zip"; "L2_20200102.zip"] ["options_20200102.csv"].
Proof.
  apply (conforming_member_marks_expanded
           (World [] ∅
              (<["unzip_daily_files/options_20200102.csv" := [x2a]]> (s3 scenario_XY))
              ∅ [])
           "unzip_daily_files" "20200102" "csv" s3_folder_zip
           ["L2_20200101.zip"; "L2_20200102.zip"] ["options_20200102.csv"]);
    try decide_by_compute.
  - vm_compute. reflexivity.
  - vm_compute. reflexivity.
Defined.

Lemma NameToInfo_is_Some (z : zip_archive) (n : string) :
  n ∈ namelist z -> is_Some (NameToInfo z !! n).
Proof.
  unfold NameToInfo, namelist. generalize (filelist z). clear z.
  induction l as [|e l IH] using rev_ind; [by intros ?%elem_of_nil|].
  rewrite fmap_app, foldl_snoc. simpl. intros Hin.
  destruct (decide (e.1 = n)) as [<-|Hne].
  - rewrite lookup_insert_eq. by eexists.
  - rewrite lookup_insert_ne by done. apply IH.
    apply elem_of_app in Hin as [?|Hin]; [done|].
    by apply list_elem_of_singleton in Hin.
Qed.

(** X15: an upload that fails in the middle of an archive leaves the
    archive half expanded.  With distinct member names, the members before
    the failing one are published, the failing one and those after it are
    not, the exception leaves the loop over the archives, and no later
    archive of the queue is read. *)
Theorem upload_failure_leaves_partial_expansion (fl : faults)
    (ZipFile : bytes -> option zip_archive)
    (in_zipfolder in_unzipfolder each_zipfile : string) (rest : list string)
    (w : world) (data : bytes)
    (pre : list (string * bytes)) (e : string * bytes)
    (post : list (string * bytes)) :
  s3 w !! (in_zipfolder +:+ each_zipfile) = Some data ->
  ZipFile data = Some (ZipArchive (pre ++ e :: post)) ->
  NoDup (pre ++ e :: post).*1 ->
  (∀ x, x ∈ pre -> upload_fails fl (in_unzipfolder +:+ x.1) = false) ->
  upload_fails fl (in_unzipfolder +:+ e.1) = true ->
  ∃ w',
    expand_loop fl ZipFile in_zipfolder in_unzipfolder (each_zipfile :: rest) w
    = (w', inl (S3UploadFailedError (in_unzipfolder +:+ e.1)))
    ∧ s3 w' = list_to_map (published in_unzipfolder pre) ∪ s3 w
    ∧ (∀ x, x ∈ pre -> s3 w' !! (in_unzipfolder +:+ x.1) = Some x.2)
    ∧ (∀ x, x ∈ e :: post -> s3 w' !! (in_unzipfolder +:+ x.1)
                              = s3 w !! (in_unzipfolder +:+ x.1))
    ∧ log w' = (log w ++ ((fun x => EvUpload (in_unzipfolder +:+ x.1)) <$> pre))
               ++ [EvUpload (in_unzipfolder +:+ e.1)].
Proof.
  intros Hget Hzip Hnd Hok Hfail.
  set (z := ZipArchive (pre ++ e :: post)) in *.
  assert (∀ x, x ∈ pre ++ e :: post -> NameToInfo z !! x.1 = Some x.2) as Hz.
  { intros [n b] Hx. by apply NameToInfo_lookup. }
  pose proof Hnd as Hnd'. rewrite fmap_app in Hnd'.
  apply NoDup_app in Hnd' as (Hndpre & Hdisj & _).
  assert (expand_loop fl ZipFile in_zipfolder in_unzipfolder
            (each_zipfile :: rest) w
          = (World (ftp_dir w) (ftp_files w)
               (list_to_map (published in_unzipfolder pre) ∪ s3 w) (local w)
               ((log w ++ ((fun x => EvUpload (in_unzipfolder +:+ x.1)) <$> pre))
                  ++ [EvUpload (in_unzipfolder +:+ e.1)]),
             inl (S3UploadFailedError (in_unzipfolder +:+ e.1)))) as Hrun;
    [|eexists; split; [exact Hrun|]; simpl; split; [reflexivity|]].
  - unfold expand_loop. apply for_each_cons_raises.
    unfold expand, s3_get, bind at 1, get_world. unfold bind at 1.
    rewrite Hget. unfold ret. rewrite Hzip.
    unfold publish, namelist. simpl. rewrite fmap_app, for_each_app.
    rewrite (publish_entries fl in_unzipfolder z pre w Hndpre).
    + apply for_each_cons_raises. unfold bind, lift, zopen.
      rewrite (Hz e) by (apply elem_of_app; right; left).
      unfold upload_fileobj, bind, emit. rewrite Hfail. reflexivity.
    + intros x Hx. apply Hz. apply elem_of_app. by left.
    + exact Hok.
  - split; [|split; [|done]].
    + intros [n b] Hx. apply lookup_union_Some_l.
      apply elem_of_list_to_map_1; [by apply NoDup_published|].
      unfold published. apply list_elem_of_fmap. by exists (n, b).
    + intros x Hx. apply lookup_union_r. apply not_elem_of_list_to_map_1.
      apply published_keys_fresh. intros Hin. apply (Hdisj _ Hin).
      change (x.1 ∈ (e :: post).*1). apply list_elem_of_fmap. by exists x.
Qed.

Lemma upload_failure_leaves_partial_expansion_witness :
  ∃ w',
    expand_loop (upload_fault "unzip_daily_files/options_b.txt") ZipFile_ex
      "zip_daily_files/" "unzip_daily_files/" ["L2_20200115.zip"] scenario_B
    = (w', inl (S3UploadFailedError "unzip_daily_files/options_b.txt"))
    ∧ s3 w' !! "unzip_daily_files/options_a.txt" = Some [x61; x61]
    ∧ s3 w' !! "unzip_daily_files/options_b.txt" = None.
Proof.
  destruct (upload_failure_leaves_partial_expansion
              (upload_fault "unzip_daily_files/options_b.txt") ZipFile_ex
              "zip_daily_files/" "unzip_daily_files/" "L2_20200115.zip" []
              scenario_B blob_B
              [("options_a.txt", [x61; x61])] ("options_b.txt", [x62]) [])
    as (w' & Hrun & _ & Hpre & Hpost & _).
  - reflexivity.
  - reflexivity.
  - decide_by_compute.
  - intros x Hx. apply list_elem_of_singleton in Hx as ->. reflexivity.
  - reflexivity.
  - exists w'. split; [exact Hrun|]. split.
    + apply (Hpre ("options_a.txt", [x61; x61])). left.
    + etrans; [apply (Hpost ("options_b.txt", [x62])); left | reflexivity].
Defined.

(** The inner loop on any valid archive, distinct member names or not. *)
Lemma publish_names (fl : faults) (in_unzipfolder : string) (z : zip_archive)
    (names : list string) (w : world) :
  (∀ n, n ∈ names -> n ∈ namelist z) ->
  (∀ n, n ∈ names -> upload_fails fl (in_unzipfolder +:+ n) = false) ->
  ∃ w',
    for_each
      (fun name =>
         let* data := lift (zopen z name) in
         upload_fileobj fl data (in_unzipfolder +:+ name))
      names w = (w', inr tt)
    ∧ log w' = log w ++ ((fun n => EvUpload (in_unzipfolder +:+ n)) <$> names)
    ∧ (∀ n, n ∈ names ->
         s3 w' !! (in_unzipfolder +:+ n) = NameToInfo z !! n)
    ∧ (∀ k, (∀ n, n ∈ names -> k <> in_unzipfolder +:+ n) ->
         s3 w' !! k = s3 w !! k).
Proof.
  revert w. induction names as [|n names IH]; intros w Hin Hok.
  - exists w. simpl. split; [done|]. rewrite app_nil_r. split; [done|].
    split; [|done]. intros n Hn. by apply elem_of_nil in Hn.
  - destruct (NameToInfo_is_Some z n) as [data Hd]; [apply Hin; left|].
    destruct (IH (World (ftp_dir w) (ftp_files w)
                    (<[in_unzipfolder +:+ n := data]> (s3 w)) (local w)
                    (log w ++ [EvUpload (in_unzipfolder +:+ n)])))
      as (w' & Hrun & Hlog & Hpub & Hout).
    { intros; apply Hin; by right. }
    { intros; apply Hok; by right. }
    exists w'. split; [|split; [|split]].
    + simpl. unfold bind at 1. unfold bind at 1. unfold lift, zopen.
      rewrite Hd. unfold upload_fileobj, bind, emit.
      rewrite (Hok n) by left. unfold set_s3. simpl. exact Hrun.
    + rewrite Hlog. simpl. by rewrite <- app_assoc.
    + intros n' Hn'. destruct (decide (n' ∈ names)) as [Hq|Hq]; [by apply Hpub|].
      apply elem_of_cons in Hn' as [->|?]; [|done].
      rewrite Hout; simpl; [by rewrite lookup_insert_eq|].
      intros n' Hn' E. apply (inj (String.append in_unzipfolder)) in E. by subst.
    + intros k Hk. rewrite Hout; simpl.
      * rewrite lookup_insert_ne; [done|]. intros E. eapply Hk; [left|done].
      * intros n' Hn'. apply Hk. by right.
Qed.

Lemma Forall2_impl_elem {A B} (P Q : A -> B -> Prop) (l : list A) (k : list B) :
  Forall2 P l k -> (∀ x y, x ∈ l -> P x y -> Q x y) -> Forall2 Q l k.
Proof.
  induction 1 as [|x y l k Hxy _ IH]; intros H; constructor.
  - apply H; [left | done].
  - apply IH. intros x' y' Hx'. apply H. by right.
Qed.

(** X16: the loop over the archives returns when every archive of the
    queue is staged and valid, every upload succeeds and no published key
    replaces an archive that is still to be read.  It then has made one
    upload per member entry and nothing else: archive by archive in queue
    order, member by member in the order of the archive; every member name
    has an object under the publish prefix, and no other key of the bucket
    has changed. *)
Theorem expand_loop_uploads_every_member (fl : faults)
    (ZipFile : bytes -> option zip_archive)
    (in_zipfolder in_unzipfolder : string)
    (queue : list string) (archives : list zip_archive) (w : world) :
  Forall2 (fun x z => ∃ data, s3 w !! (in_zipfolder +:+ x) = Some data
                              ∧ ZipFile data = Some z) queue archives ->
  (∀ z n, z ∈ archives -> n ∈ namelist z ->
     upload_fails fl (in_unzipfolder +:+ n) = false
     ∧ ∀ x, x ∈ queue -> in_unzipfolder +:+ n <> in_zipfolder +:+ x) ->
  ∃ w',
    expand_loop fl ZipFile in_zipfolder in_unzipfolder queue w = (w', inr tt)
    ∧ log w' = log w ++
        flat_map (fun z => (fun n => EvUpload (in_unzipfolder +:+ n)) <$> namelist z)
          archives
    ∧ (∀ z n, z ∈ archives -> n ∈ namelist z ->
         is_Some (s3 w' !! (in_unzipfolder +:+ n)))
    ∧ (∀ k, (∀ z n, z ∈ archives -> n ∈ namelist z ->
                    k <> in_unzipfolder +:+ n) ->
         s3 w' !! k = s3 w !! k).
Proof.
  unfold expand_loop. intros HF. revert w HF.
  induction queue as [|x queue IH] in archives |- *; intros w HF Hup.
  - apply Forall2_nil_inv_l in HF as ->. exists w. simpl.
    rewrite app_nil_r. split; [done|]. split; [done|]. split; [|done].
    intros z n Hz. by apply elem_of_nil in Hz.
  - apply Forall2_cons_inv_l in HF as (z & zs & (data & Hget & Hzip) & HF & ->).
    destruct (publish_names fl in_unzipfolder z (namelist z) w)
      as (w1 & Hrun1 & Hlog1 & Hpub1 & Hout1); [done| |].
    { intros n Hn. apply (Hup z n); [left | done]. }
    destruct (IH zs w1) as (w' & Hrun & Hlog & Hpub & Hout).
    { eapply Forall2_impl_elem; [exact HF|]. intros y zy Hyq (dy & Hy & Hzy).
      exists dy. split; [|done]. rewrite Hout1; [done|].
      intros n Hn E. destruct (Hup z n) as [_ Hne]; [left | done |].
      apply (Hne y); [by right | done]. }
    { intros z' n Hz' Hn. destruct (Hup z' n) as [Hok Hne]; [by right | done |].
      split; [done|]. intros y Hy. apply Hne. by right. }
    exists w'. split; [|split; [|split]].
    + simpl. unfold bind at 1. unfold expand, s3_get, bind at 1, get_world.
      unfold bind at 1. rewrite Hget. unfold ret. rewrite Hzip.
      unfold publish. rewrite Hrun1. exact Hrun.
    + rewrite Hlog, Hlog1. simpl. by rewrite <- app_assoc.
    + intros z' n Hz' Hn. apply elem_of_cons in Hz' as [->|Hz']; [|by eapply Hpub].
      destruct (decide (n ∈ zs ≫= namelist)) as [Hin|Hno].
      * apply list_elem_of_bind in Hin as (z'' & Hn'' & Hz''). by eapply Hpub.
      * rewrite Hout.
        -- rewrite (Hpub1 n Hn). by apply NameToInfo_is_Some.
        -- intros z'' n'' Hz'' Hn'' E.
           apply (inj (String.append in_unzipfolder)) in E. subst n''.
           apply Hno. apply list_elem_of_bind. by exists z''.
    + intros k Hk. rewrite Hout, Hout1; [done| |].
      * intros n Hn. apply (Hk z n); [left | done].
      * intros z' n Hz' Hn. apply (Hk z' n); [by right | done].
Qed.

Lemma expand_loop_uploads_every_member_witness :
  ∃ w',
    expand_loop no_faults ZipFile_ex "zip_daily_files/" "unzip_daily_files/"
      ["L2_20200115.zip"] scenario_B = (w', inr tt)
    ∧ log w' = log scenario_B ++
        [EvUpload "unzip_daily_files/options_a.txt";
         EvUpload "unzip_daily_files/options_b.txt"].
Proof.
  destruct (expand_loop_uploads_every_member no_faults ZipFile_ex
              "zip_daily_files/" "unzip_daily_files/"
              ["L2_20200115.zip"] [archive_B] scenario_B)
    as (w' & Hrun & Hlog & _).
  - constructor; [|constructor]. exists blob_B. split; reflexivity.
  - intros z n Hz Hn. apply list_elem_of_singleton in Hz as ->.
    split; [reflexivity|]. intros x Hx.
    apply list_elem_of_singleton in Hx as ->.
    assert (n ∈ ["options_a.txt"; "options_b.txt"]) as Hn' by exact Hn.
    apply elem_of_cons in Hn' as [->|Hn'];
      [|apply list_elem_of_singleton in Hn' as ->]; decide_by_compute.
  - exists w'. split; [exact Hrun | exact Hlog].
Defined.

(** X17: the folder argument is matched as a string prefix of the key, not
    as a folder: a file one level below any folder whose name merely begins
    with [in_folder] is reported as well.  For instance the argument
    [zip_daily_files], without the final ['/'], also reports the files of a
    folder [zip_daily_files_old/]. *)
Theorem folder_filter_is_a_prefix_test (resp : list_objects_response)
    (objs : list s3_object) (in_folder extra name : string)
    (names : list string) :
  in_folder <> "" ->
  "/"%char ∉ Py.chars (in_folder +:+ extra) ->
  "/"%char ∉ Py.chars name -> name <> "" ->
  Contents resp = Some objs ->
  (in_folder +:+ extra) +:+ "/" +:+ name ∈ Key <$> objs ->
  get_s3_file_names_of resp (Some in_folder) = inr names ->
  name ∈ names.
Proof.
  intros Hf Hd Hn Hne Hc Hin E.
  unfold get_s3_file_names_of, get_Contents in E. rewrite Hc in E.
  apply (comprehension_elem_of _ _ _ name E).
  exists ((in_folder +:+ extra) +:+ "/" +:+ name). split.
  - apply elem_of_ls_s3_files; [done|]. split; [done|]. split.
    + rewrite <- append_assoc. by apply not_endswith_slash.
    + rewrite append_assoc. apply startswith_app.
  - destruct (second_segment_folder (in_folder +:+ extra) name Hd)
      as (seg & Hseg & _ & Hiff).
    rewrite Hseg. f_equal. by apply Hiff.
Qed.

Lemma folder_filter_is_a_prefix_test_witness :
  "L2_20190101.zip" ∈ ["L2_20200101.zip"; "L2_20190101.zip"].
Proof.
  apply (folder_filter_is_a_prefix_test
           (Response (Some [S3Object "zip_daily_files/L2_20200101.zip" 1;
                            S3Object "zip_daily_files_old/L2_20190101.zip" 1]))
           [S3Object "zip_daily_files/L2_20200101.zip" 1;
            S3Object "zip_daily_files_old/L2_20190101.zip" 1]
           "zip_daily_files" "_old" "L2_20190101.zip");
    try decide_by_compute; reflexivity.
Defined.
